(** * JSXGraph point groups: the transform engine of [src/base/group.js]

    A shallow embedding of [JXG.Group] -- membership, the cache of
    coordinates, the classification of a drag, the construction of the
    transformation and its application -- together with the properties
    the specification states about it.

    JavaScript numbers and the geometry helpers the group calls
    ([Mat], [Geometry], [Coords], [Transformation]) live in other files
    of the library; the engine is therefore stated over an arbitrary
    number type and over arbitrary helpers, and instantiated with
    binary64 floats (module [JS]) for the concrete runs. *)

From Stdlib Require Import Ascii String List Bool Arith Lia Floats ZArith.
From Stdlib Require Import Uint63.
From Stdlib Require Import Permutation.
Import ListNotations.

Set Implicit Arguments.

(** ** Numbers and external helpers *)

(** The arithmetic of JavaScript numbers, as far as the group uses it. *)
Class Number (num : Type) : Type := {
  fadd : num -> num -> num;
  fsub : num -> num -> num;
  fmul : num -> num -> num;
  fdiv : num -> num -> num;
  fzero : num;
  fone : num;
  flt : num -> num -> bool;            (* [a < b]; [a > b] is [flt b a] *)
  Math_abs : num -> num;
  of_count : nat -> num;               (* a loop counter used as a number *)
  Mat_eps : num                        (* [Mat.eps] of math/math.js *)
}.

Section Coordinates.
Variable num : Type.

(** [usrCoords]: the homogeneous triple [[z, x, y]]. *)
Definition usr : Type := (num * num * num)%type.
(** A Euclidean pair [[x, y]], e.g. [usrCoords.slice(1)]. *)
Definition pair : Type := (num * num)%type.

Definition usr_z (u : usr) : num := fst (fst u).
Definition usr_x (u : usr) : num := snd (fst u).
Definition usr_y (u : usr) : num := snd u.
Definition slice1 (u : usr) : pair := (usr_x u, usr_y u).
End Coordinates.

(** What the group calls in [math/geometry], [base/coords] and
    [base/transformation]; none of it is defined in group.js. *)
Class Library (num : Type) : Type := {
  matrix : Type;                       (* [t.matrix] of a transformation *)
  angle : Type;
  Coords_distance : usr num -> usr num -> num;
  Geometry_distance : pair num -> pair num -> num;
  Geometry_rad : pair num -> pair num -> pair num -> angle;
  (* [board.create('transform', [alpha, cx, cy], {type: 'rotate'})]
     followed by [t.update()] *)
  create_rotate : angle -> num -> num -> matrix;
  (* [board.create('transform', [a, ..., i], {type: 'generic'})]
     followed by [t.update()]; the nine numbers row by row *)
  create_generic : usr num -> usr num -> usr num -> matrix;
  Mat_matVecMult : matrix -> usr num -> usr num;
  (* [t.applyOnce([obj])]: the transformation is handed the point alone,
     so the coordinates it writes depend on the matrix and on the live
     coordinates of that point *)
  applyOnce : matrix -> usr num -> usr num
}.

(** ** JavaScript objects used as maps

    [for (el in o)] visits the string keys of [o] in the order of their
    insertion (the ids of board elements are no array indices, which
    would come first); [o[k] = v] overwrites in place or appends;
    [delete o[k]] removes the key. *)
Section Objects.
Variable V : Type.

Fixpoint lookup (k : string) (o : list (string * V)) : option V :=
  match o with
  | [] => None
  | (k', v) :: r => if String.eqb k' k then Some v else lookup k r
  end.

Fixpoint assign (k : string) (v : V) (o : list (string * V))
  : list (string * V) :=
  match o with
  | [] => [(k, v)]
  | (k', v') :: r =>
      if String.eqb k' k then (k, v) :: r else (k', v') :: assign k v r
  end.

Definition keys (o : list (string * V)) : list string := map fst o.
End Objects.

(** [Type.isInArray(arr, el)] on point references or ids. *)
Definition isInArray (arr : list string) (el : string) : bool :=
  existsb (String.eqb el) arr.

(** [delete o[k]] on an object whose values are determined by the key. *)
Definition delete (k : string) (o : list string) : list string :=
  filter (fun k' => negb (String.eqb k' k)) o.

(** The value of a decimal digit. *)
Definition digit (c : ascii) : option N :=
  let n := N_of_ascii c in
  if (N.leb 48 n && N.leb n 57)%bool then Some (n - 48)%N else None.

(** The number a string of decimal digits writes, after [acc]. *)
Fixpoint numeral (k : string) (acc : N) : option N :=
  match k with
  | EmptyString => Some acc
  | String c r =>
      match digit c with
      | Some d => numeral r (10 * acc + d)%N
      | None => None
      end
  end.

(** The array index a property key stands for, if it is one: the decimal
    numeral, without a leading zero, of a number below 2^32 - 1. The
    enumeration of an object ([for ... in]) visits such keys first, in
    ascending order, and then the other keys in the order in which they
    were created. *)
Definition array_index (k : string) : option N :=
  match k with
  | EmptyString => None
  | String c r =>
      match numeral k 0 with
      | Some n =>
          if ((negb (N.eqb (N_of_ascii c) 48) || String.eqb r EmptyString)
              && N.ltb n 4294967295)%bool
          then Some n
          else None
      | None => None
      end
  end.

(** [arr.push(x)] when [x] is not yet a key, nothing otherwise: the key
    list of an object after [o[x] = ...], for a key [x] that is no array
    index, which the enumeration visits behind all older keys. *)
Definition add_key (k : string) (o : list string) : list string :=
  if isInArray o k then o else o ++ [k].

(** Modelled from the spec: [Type.uniqueArray] of utils/type.js is not
    among the sources; the spec says the list of groups of a point is
    "deduplicated". *)
Definition uniqueArray (arr : list string) : list string :=
  nodup string_dec arr.

(** [s.indexOf(c) >= 0] *)
Definition indexOf_ge0 (s c : string) : bool :=
  match String.index 0 c s with Some _ => true | None => false end.

(** ** The data model *)

Inductive Action : Type := nothing | translation | rotation | scaling.

(** The result of [_update_find_drag_type]. *)
Record Drag : Type := mkDrag {
  action : Action;
  drag_id : string;
  changed : list string
}.

Section Engine.
Context {num : Type} {N : Number num} {L : Library num}.

(** The fields of a [JXG.Point] the group reads or writes. *)
Record Point : Type := mkPoint {
  usrCoords : usr num;               (* [obj.coords.usrCoords] *)
  groups : list string               (* [obj.groups] *)
}.

(** A point reference is the id of the point; [Heap] resolves it. *)
Definition Heap : Type := string -> Point.

(** The values [rotationCenter] and [scaleCenter] can hold. *)
Inductive Center : Type :=
| CNull                                   (* [null] or [undefined] *)
| CPoint (p : string)                     (* a point *)
| CCentroid                               (* the string 'centroid' *)
| CArray (c : pair num)                   (* an array of length two *)
| CFunction (f : Heap -> pair num)        (* a function returning one *)
| COther.                                 (* any other value *)

(** A group together with the part of the board it touches.
    [objects] lists the keys of [this.objects] in iteration order: the
    entry under key [el] is [{point: p}] with [p.id = el], since
    [addPoint], the only writer, files every point under its own id. *)
Record State : Type := mkState {
  group_id : string;
  objects : list string;
  coords : list (string * usr num);  (* [this.coords[el].usrCoords] *)
  needsUpdate : bool;
  rotationCenter : Center;
  scaleCenter : Center;
  rotationPoints : list string;
  translationPoints : list string;
  scalePoints : list string;
  scaleDirections : list (string * string);
  board_objects : list string;       (* the keys of [board.objects] *)
  points : Heap
}.

Definition set_objects (o : list string) (s : State) : State :=
  mkState (group_id s) o (coords s) (needsUpdate s) (rotationCenter s)
    (scaleCenter s) (rotationPoints s) (translationPoints s)
    (scalePoints s) (scaleDirections s) (board_objects s) (points s).

Definition set_coords (c : list (string * usr num)) (s : State) : State :=
  mkState (group_id s) (objects s) c (needsUpdate s) (rotationCenter s)
    (scaleCenter s) (rotationPoints s) (translationPoints s)
    (scalePoints s) (scaleDirections s) (board_objects s) (points s).

Definition set_needsUpdate (b : bool) (s : State) : State :=
  mkState (group_id s) (objects s) (coords s) b (rotationCenter s)
    (scaleCenter s) (rotationPoints s) (translationPoints s)
    (scalePoints s) (scaleDirections s) (board_objects s) (points s).

Definition set_translationPoints (l : list string) (s : State) : State :=
  mkState (group_id s) (objects s) (coords s) (needsUpdate s)
    (rotationCenter s) (scaleCenter s) (rotationPoints s) l
    (scalePoints s) (scaleDirections s) (board_objects s) (points s).

Definition set_points (h : Heap) (s : State) : State :=
  mkState (group_id s) (objects s) (coords s) (needsUpdate s)
    (rotationCenter s) (scaleCenter s) (rotationPoints s)
    (translationPoints s) (scalePoints s) (scaleDirections s)
    (board_objects s) h.

(** Writing one point object. *)
Definition store (p : string) (v : Point) (h : Heap) : Heap :=
  fun q => if String.eqb q p then v else h q.

(** Modelled from the spec: [Coords.setCoordinates] of base/coords.js is
    not among the sources; the spec calls it "a direct coordinate
    assignment that does not re-trigger snapping/rounding". A Euclidean
    pair [[x, y]] is stored as [[1, x, y]]. *)
Definition setCoordinates2 (c : pair num) : usr num :=
  (fone, fst c, snd c).

(** Modelled from the spec: as above, for a homogeneous triple, which is
    stored as it is given. *)
Definition setCoordinates3 (c : usr num) : usr num := c.

Definition set_usrCoords (p : string) (u : usr num) (s : State) : State :=
  set_points (store p (mkPoint u (groups (points s p))) (points s)) s.

Definition set_groups (p : string) (g : list string) (s : State) : State :=
  set_points (store p (mkPoint (usrCoords (points s p)) g) (points s)) s.

(** [Type.exists(v)] on a center. *)
Definition Type_exists (c : Center) : bool :=
  match c with CNull => false | _ => true end.

(** *** The cache of coordinates *)

Definition _updateCoordsCache (el : string) (s : State) : State :=
  if negb (String.eqb el EmptyString) && isInArray (objects s) el then
    set_coords (assign el (usrCoords (points s el)) (coords s)) s
  else s.

(** *** Membership *)

(** [board.select(object)] returns the point it is given. *)
Definition addPoint (object : string) (s : State) : State :=
  let s1 := set_objects (add_key object (objects s)) s in
  let s2 := _updateCoordsCache object s1 in
  let s3 := set_translationPoints (translationPoints s2 ++ [object]) s2 in
  set_groups object
    (uniqueArray (groups (points s3 object) ++ [group_id s3])) s3.

Definition addPoints (l : list string) (s : State) : State :=
  fold_left (fun st p => addPoint p st) l s.

Definition removePoint (point : string) (s : State) : State :=
  set_objects (delete point (objects s)) s.

(** [new JXG.Group(board, id, name, [], attributes)]: the group before
    its first [addPoint]. *)
Definition new_Group (id : string) (board : list string) (h : Heap)
  : State :=
  mkState id [] [] false CCentroid CNull [] [] [] [] board h.

(** *** Centers and roles *)

Definition set_rotationCenter (c : Center) (s : State) : State :=
  mkState (group_id s) (objects s) (coords s) (needsUpdate s) c
    (scaleCenter s) (rotationPoints s) (translationPoints s)
    (scalePoints s) (scaleDirections s) (board_objects s) (points s).

Definition set_scaleCenter (c : Center) (s : State) : State :=
  mkState (group_id s) (objects s) (coords s) (needsUpdate s)
    (rotationCenter s) c (rotationPoints s) (translationPoints s)
    (scalePoints s) (scaleDirections s) (board_objects s) (points s).

Definition set_rotationPoints (l : list string) (s : State) : State :=
  mkState (group_id s) (objects s) (coords s) (needsUpdate s)
    (rotationCenter s) (scaleCenter s) l (translationPoints s)
    (scalePoints s) (scaleDirections s) (board_objects s) (points s).

Definition set_scalePoints (l : list string) (s : State) : State :=
  mkState (group_id s) (objects s) (coords s) (needsUpdate s)
    (rotationCenter s) (scaleCenter s) (rotationPoints s)
    (translationPoints s) l (scaleDirections s) (board_objects s)
    (points s).

Definition set_scaleDirections (d : list (string * string)) (s : State)
  : State :=
  mkState (group_id s) (objects s) (coords s) (needsUpdate s)
    (rotationCenter s) (scaleCenter s) (rotationPoints s)
    (translationPoints s) (scalePoints s) d (board_objects s) (points s).

Definition setRotationCenter (object : Center) (s : State) : State :=
  set_rotationCenter object s.

Definition setScaleCenter (object : Center) (s : State) : State :=
  set_scaleCenter object s.

(** [_addActionPoint('rotation', point)] *)
Definition addRotationPoint (point : string) (s : State) : State :=
  set_rotationPoints (rotationPoints s ++ [point]) s.

(** [_addActionPoint('translation', point)] *)
Definition addTranslationPoint (point : string) (s : State) : State :=
  set_translationPoints (translationPoints s ++ [point]) s.

(** [addScalePoint(point, direction)]; [direction || 'xy'] turns a
    missing or empty direction into ['xy']. *)
Definition addScalePoint (point : string) (direction : string) (s : State)
  : State :=
  let s1 := set_scalePoints (scalePoints s ++ [point]) s in
  set_scaleDirections
    (assign point (if String.eqb direction EmptyString then "xy"%string
                   else direction)
       (scaleDirections s1)) s1.

(** *** The drag classifier *)

(** A [TypeError] (reading a property of [undefined]) is [None]. *)
Definition bind {A B : Type} (m : option A) (k : A -> option B)
  : option B :=
  match m with Some a => k a | None => None end.

Notation "x <- m ;; k" := (bind m (fun x => k))
  (at level 61, m at next level, right associativity).

(** The first loop of [_update_find_drag_type]: the ids of the members
    whose live coordinates are further than [Mat.eps] from the cache. *)
Fixpoint find_changed (s : State) (els : list string)
  : option (list string) :=
  match els with
  | [] => Some []
  | el :: r =>
      c <- lookup el (coords s) ;;
      rest <- find_changed s r ;;
      Some (if flt Mat_eps (Coords_distance (usrCoords (points s el)) c)
            then el :: rest else rest)
  end.

(** The test of that loop on one member, once its entry is known to be
    there. *)
Definition moved (s : State) (el : string) : bool :=
  match lookup el (coords s) with
  | Some c => flt Mat_eps (Coords_distance (usrCoords (points s el)) c)
  | None => false
  end.

Definition _update_find_drag_type (s : State) : option Drag :=
  ch <- find_changed s (objects s) ;;
  match ch with
  | [] => Some (mkDrag nothing EmptyString ch)
  | dragObjId :: _ =>
      let obj := dragObjId in
      Some (mkDrag
        (if 1 <? length ch then translation
         else if isInArray (rotationPoints s) obj
                 && Type_exists (rotationCenter s) then rotation
         else if isInArray (scalePoints s) obj
                 && Type_exists (scaleCenter s) then scaling
         else if isInArray (translationPoints s) obj then translation
         else nothing)
        dragObjId ch)
  end.

(** *** The center *)

Definition _update_centroid_center (s : State) : pair num :=
  let '(c0, c1, len) :=
    fold_left
      (fun (acc : num * num * nat) (e : string * usr num) =>
         let '(c0, c1, len) := acc in
         (fadd c0 (usr_x (snd e)), fadd c1 (usr_y (snd e)), S len))
      (coords s) (fzero, fzero, 0) in
  if 0 <? len then (fdiv c0 (of_count len), fdiv c1 (of_count len))
  else (c0, c1).

(** What [update] hands on to [_update_apply_transformation]: the
    array [[dx, dy]] of a translation or a transformation object. *)
Inductive Transform : Type :=
| TArray (t0 t1 : num)
| TObject (m : matrix).

(** The preparation either leaves [update] early ([return this]) or
    yields the transformation. *)
Inductive Prepared : Type :=
| Abort
| Ready (t : Transform).

(** The chain of tests on [this[actionCenter]]. *)
Definition resolve_center (s : State) (c : Center) : option (pair num) :=
  match c with
  | CPoint p => Some (slice1 (usrCoords (points s p)))
  | CCentroid => Some (_update_centroid_center s)
  | CArray a => Some a
  | CFunction f => Some (f (points s))
  | CNull | COther => None
  end.

(** The values no test of the chain accepts. *)
Definition unsupported (c : Center) : bool :=
  match c with CNull | COther => true | _ => false end.

(** "Prepare translation, scaling or rotation" in [update]. *)
Definition prepare (s : State) (drag : Drag) : option Prepared :=
  let obj := points s (drag_id drag) in
  match action drag with
  | translation =>
      c <- lookup (drag_id drag) (coords s) ;;
      Some (Ready (TArray (fsub (usr_x (usrCoords obj)) (usr_x c))
                          (fsub (usr_y (usrCoords obj)) (usr_y c))))
  | rotation =>
      match resolve_center s (rotationCenter s) with
      | None => Some Abort
      | Some center =>
          c <- lookup (drag_id drag) (coords s) ;;
          let alpha :=
            Geometry_rad (slice1 c) center (slice1 (usrCoords obj)) in
          Some (Ready (TObject
                  (create_rotate alpha (fst center) (snd center))))
      end
  | scaling =>
      match resolve_center s (scaleCenter s) with
      | None => Some Abort
      | Some center =>
          c <- lookup (drag_id drag) (coords s) ;;
          let s0 := Geometry_distance (slice1 c) center in
          if flt (Math_abs s0) Mat_eps then Some Abort
          else
            let f :=
              fdiv (Geometry_distance (slice1 (usrCoords obj)) center)
                   s0 in
            dir <- lookup (drag_id drag) (scaleDirections s) ;;
            let sx := if indexOf_ge0 dir "x" then f else fone in
            let sy := if indexOf_ge0 dir "y" then f else fone in
            Some (Ready (TObject
              (create_generic
                 (fone, fzero, fzero)
                 (fmul (fst center) (fsub fone sx), sx, fzero)
                 (fmul (snd center) (fsub fone sy), fzero, sy))))
      end
  | nothing => Some Abort
  end.

(** *** Applying the transformation *)

(** The body of the loop of [_update_apply_transformation] for the key
    [el]. [update] pairs a translation with an array and a rotation or
    scaling with a transformation object; the other pairings, which it
    never makes, are [None]. *)
Definition apply_body (drag : Drag) (t : Transform) (el : string)
  (s : State) : option State :=
  if isInArray (board_objects s) el then
    let obj := el in
    if negb (String.eqb obj (drag_id drag)) then
      match action drag with
      | translation =>
          if negb (isInArray (changed drag) obj) then
            c <- lookup el (coords s) ;;
            match t with
            | TArray t0 t1 =>
                Some (set_usrCoords obj
                        (setCoordinates2
                           (fadd (usr_x c) t0, fadd (usr_y c) t1)) s)
            | TObject _ => None
            end
          else Some s
      | rotation | scaling =>
          match t with
          | TObject m =>
              Some (set_usrCoords obj
                      (applyOnce m (usrCoords (points s obj))) s)
          | TArray _ _ => None
          end
      | nothing => Some s
      end
    else
      match action drag with
      | rotation | scaling =>
          c <- lookup obj (coords s) ;;
          match t with
          | TObject m =>
              Some (set_usrCoords obj
                      (setCoordinates3 (Mat_matVecMult m c)) s)
          | TArray _ _ => None
          end
      | _ => Some s
      end
  else Some (set_objects (delete el (objects s)) s).

Fixpoint apply_loop (drag : Drag) (t : Transform) (els : list string)
  (s : State) : option State :=
  match els with
  | [] => Some s
  | el :: r => s1 <- apply_body drag t el s ;; apply_loop drag t r s1
  end.

Definition _update_apply_transformation (drag : Drag) (t : Transform)
  (s : State) : option State :=
  apply_loop drag t (objects s) s.

(** *** The update cycle *)

(** The last loop of [update]: the cache of every member is renewed. *)
Definition refresh_all (s : State) : State :=
  fold_left (fun st el => _updateCoordsCache el st) (objects s) s.

(** [update], with [board.updateElements] as a parameter: the board may
    do anything to the state, including a call of [update] on this
    very group. The loop over [this.objects[el].descendants] before it
    has no iteration, since the entries of [this.objects] are
    [{point: p}] and carry no [descendants]. *)
Definition update (updateElements : Drag -> State -> option State)
  (s : State) : option State :=
  if negb (needsUpdate s) then Some s
  else
    drag <- _update_find_drag_type s ;;
    match action drag with
    | nothing => Some (_updateCoordsCache (drag_id drag) s)
    | _ =>
        p <- prepare s drag ;;
        match p with
        | Abort => Some s
        | Ready t =>
            s1 <- _update_apply_transformation drag t s ;;
            let s2 := set_needsUpdate false s1 in
            s3 <- updateElements drag s2 ;;
            Some (refresh_all s3)
        end
    end.
End Engine.

Arguments Point num : clear implicits.
Arguments Heap num : clear implicits.
Arguments Center num : clear implicits.
Arguments State num : clear implicits.

(** ** JavaScript numbers: binary64 floats

    The instance used for the concrete runs. *)
Module JS.
Local Open Scope float_scope.

#[global] Instance number : Number float := {|
  fadd := PrimFloat.add;
  fsub := PrimFloat.sub;
  fmul := PrimFloat.mul;
  fdiv := PrimFloat.div;
  fzero := 0;
  fone := 1;
  flt := PrimFloat.ltb;
  Math_abs := PrimFloat.abs;
  of_count := fun n => PrimFloat.of_uint63 (Uint63.of_Z (Z.of_nat n));
  Mat_eps := 0x1.0c6f7a0b5ed8dp-20     (* 0.000001 *)
|}.

(** Modelled from the spec: [Geometry.distance] of math/geometry.js is
    not among the sources; the spec names it "2D distance". *)
Definition distance (a b : pair float) : float :=
  PrimFloat.sqrt
    (0 + (fst a - fst b) * (fst a - fst b)
       + (snd a - snd b) * (snd a - snd b)).

(** Modelled from the spec: [Coords.distance] of base/coords.js is not
    among the sources; the spec says "Euclidean distance between its
    live coordinates and its snapshot entry". *)
Definition coords_distance (u c : usr float) : float :=
  distance (slice1 u) (slice1 c).

(** An angle is kept as its cosine and sine. *)
Definition Angle : Type := (float * float)%type.

(** Modelled from the spec: [Geometry.rad] of math/geometry.js is not
    among the sources; the spec says "the signed angle, about [c], from
    the snapshot position to the live position". *)
Definition rad (a c b : pair float) : Angle :=
  let ax := fst a - fst c in
  let ay := snd a - snd c in
  let bx := fst b - fst c in
  let by_ := snd b - snd c in
  let n := PrimFloat.sqrt (ax * ax + ay * ay)
           * PrimFloat.sqrt (bx * bx + by_ * by_) in
  ((ax * bx + ay * by_) / n, (ax * by_ - ay * bx) / n).

Definition Matrix : Type := (usr float * usr float * usr float)%type.

(** Modelled from the spec: the transformation of type 'rotate' of
    base/transformation.js is not among the sources; the spec says "the
    rigid rotation-about-[c] affine transform for that angle". *)
Definition rotate (alpha : Angle) (cx cy : float) : Matrix :=
  let co := fst alpha in
  let si := snd alpha in
  ((1, 0, 0),
   (cx * (1 - co) + cy * si, co, - si),
   (cy * (1 - co) - cx * si, si, co)).

(** Modelled from the spec: the transformation of type 'generic' of
    base/transformation.js is not among the sources; its matrix is made
    of the nine numbers it is given. *)
Definition generic (r0 r1 r2 : usr float) : Matrix := (r0, r1, r2).

Definition row (r v : usr float) : float :=
  usr_z r * usr_z v + usr_x r * usr_x v + usr_y r * usr_y v.

(** Modelled from the spec: [Mat.matVecMult] of math/math.js is not
    among the sources; the spec names it "matrix-vector multiply". *)
Definition matVecMult (m : Matrix) (v : usr float) : usr float :=
  let '(r0, r1, r2) := m in (row r0 v, row r1 v, row r2 v).

(** Modelled from the spec: [Transformation.applyOnce] of
    base/transformation.js is not among the sources. The spec lists
    "matrix-vector multiply" among what the engine consumes; the call
    [t.applyOnce([obj])] hands over the point alone, so the product is
    taken with the live coordinates of that point and assigned to it. *)
Definition apply_once (m : Matrix) (live : usr float) : usr float :=
  matVecMult m live.

(** The helpers, for any [applyOnce]. *)
Definition library_with (ao : Matrix -> usr float -> usr float)
  : Library float := {|
  matrix := Matrix;
  angle := Angle;
  Coords_distance := coords_distance;
  Geometry_distance := distance;
  Geometry_rad := rad;
  create_rotate := rotate;
  create_generic := generic;
  Mat_matVecMult := matVecMult;
  applyOnce := ao
|}.

#[global] Instance library : Library float := library_with apply_once.

(** [===] on pairs and triples of numbers, component by component. *)
Definition pair_eqb (a b : pair float) : bool :=
  PrimFloat.eqb (fst a) (fst b) && PrimFloat.eqb (snd a) (snd b).

Definition usr_eqb (a b : usr float) : bool :=
  PrimFloat.eqb (usr_z a) (usr_z b) && PrimFloat.eqb (usr_x a) (usr_x b)
  && PrimFloat.eqb (usr_y a) (usr_y b).

Fixpoint list_usr_eqb (l1 l2 : list (usr float)) : bool :=
  match l1, l2 with
  | [], [] => true
  | a :: r1, b :: r2 => usr_eqb a b && list_usr_eqb r1 r2
  | _, _ => false
  end.

Definition positions_eqb (a b : option (list (usr float))) : bool :=
  match a, b with
  | Some x, Some y => list_usr_eqb x y
  | None, None => true
  | _, _ => false
  end.

(** A board with the points [l], each at its Euclidean coordinates and
    in no group yet. *)
Definition heap_of (l : list (string * pair float)) : Heap float :=
  fun p =>
    match lookup p l with
    | Some c => mkPoint (1, fst c, snd c) []
    | None => mkPoint (1, 0, 0) []
    end.

(** [board.create('group', ids)] on such a board. *)
Definition createGroup (l : list (string * pair float)) (ids : list string)
  : State float :=
  addPoints ids (new_Group "g" (keys l) (heap_of l)).

(** A point is dragged to [(x, y)]; the board marks the group. *)
Definition moveTo (p : string) (x y : float) (s : State float)
  : State float :=
  set_needsUpdate true (set_usrCoords p (1, x, y) s).

(** A pass of the board that changes nothing. *)
Definition quiet (_ : Drag) (s : State float) : option (State float) :=
  Some s.

(** The coordinates of the listed points. *)
Definition positions (ids : list string) (s : option (State float))
  : option (list (usr float)) :=
  match s with
  | Some s' => Some (map (fun p => usrCoords (points s' p)) ids)
  | None => None
  end.
End JS.

(** ** Sequences of membership calls, and the mean of the cache *)

(** The calls of the membership interface. *)
Inductive Op : Type :=
| Add (p : string)
| Remove (p : string).

Section Runs.
Context {num : Type} {N : Number num} {L : Library num}.
Implicit Types (s : State num) (p el : string).

Definition perform s (o : Op) : State num :=
  match o with
  | Add p => addPoint p s
  | Remove p => removePoint p s
  end.

Definition run (ops : list Op) s : State num := fold_left perform ops s.

(** The point ids a sequence of calls adds. *)
Definition added (ops : list Op) : list string :=
  flat_map (fun o => match o with Add p => [p] | Remove _ => [] end) ops.

(** Every member has an entry in the cache, and no key occurs twice. *)
Definition cached s : Prop :=
  NoDup (objects s) /\ NoDup (keys (coords s)) /\
  forall el, In el (objects s) -> In el (keys (coords s)).

(** The entries of the cache that belong to current members: what the
    specification takes the centroid of. *)
Definition member_snapshots s : list (usr num) :=
  map snd (filter (fun e => isInArray (objects s) (fst e)) (coords s)).

Definition sum (l : list num) : num := fold_left fadd l fzero.

Definition arithmetic_mean (l : list (usr num)) : pair num :=
  match l with
  | [] => (fzero, fzero)
  | _ => (fdiv (sum (map (@usr_x num) l)) (of_count (length l)),
          fdiv (sum (map (@usr_y num) l)) (of_count (length l)))
  end.
End Runs.

(** ** Concrete groups *)
Module Scenes.
Import JS.
Local Open Scope string_scope.
Local Open Scope float_scope.

(** The corners of a square. *)
Definition square : list (string * pair float) :=
  [("A", (0, 0)); ("B", (2, 0)); ("C", (2, 2)); ("D", (0, 2))].

Definition square_group : State float :=
  createGroup square ["A"; "B"; "C"; "D"].

(** Two points are grouped, then the second is removed. *)
Definition after_removal : State float :=
  removePoint "B" (createGroup [("A", (0, 0)); ("B", (2, 0))] ["A"; "B"]).

(** The calls that add a point and remove it again. *)
Definition add_remove : list Op := [Add "A"; Remove "A"].

Definition emptied : State float :=
  run add_remove (new_Group "g" ["A"] (heap_of [("A", (2, 2))])).

(** B is a rotation point and a scale point, both centers are set, and
    B is dragged from (2,0) to (3,0). *)
Definition both_roles : State float :=
  moveTo "B" 3 0
    (setScaleCenter (CArray (0, 0))
       (addScalePoint "B" EmptyString (addRotationPoint "B" square_group))).

(** A is dragged from (0,0) to (1,3). *)
Definition dragged : State float := moveTo "A" 1 3 square_group.

(** B is made a rotation point, about the centroid, and dragged from
    (2,0) to (3,0); every member is still a translation point. *)
Definition turned : State float :=
  moveTo "B" 3 0 (addRotationPoint "B" square_group).

(** A and C are both moved before the group is updated. *)
Definition two_dragged : State float :=
  moveTo "C" 5 5 (moveTo "A" 1 3 square_group).

(** B is a rotation point, the rotation center is a number, and B is
    dragged. *)
Definition bad_center : State float :=
  moveTo "B" 3 0
    (setRotationCenter COther (addRotationPoint "B" square_group)).

(** B is a scale point, the scale center is where B is cached, and B is
    dragged. *)
Definition degenerate : State float :=
  moveTo "B" 3 0
    (setScaleCenter (CArray (2, 0))
       (addScalePoint "B" EmptyString square_group)).

(** A at (1,0) is a scale point about the origin and B is cached at (0,1).
    B has drifted by 2^-21, less than [Mat.eps], when A is dragged to
    (2,0). *)
Definition drifted : State float :=
  moveTo "A" 2 0
    (set_usrCoords "B" (1, 0, 0x1.000008p+0)
       (setScaleCenter (CArray (0, 0))
          (addScalePoint "A" EmptyString
             (createGroup [("A", (1, 0)); ("B", (0, 1))] ["A"; "B"])))).

(** What the classifier makes of these drags. *)
Definition drag_A : Drag := mkDrag translation "A" ["A"].
Definition drag_AC : Drag := mkDrag translation "A" ["A"; "C"].
Definition rotate_B : Drag := mkDrag rotation "B" ["B"].
Definition scale_B : Drag := mkDrag scaling "B" ["B"].
Definition scale_A : Drag := mkDrag scaling "A" ["A"].

(** The same drag, on a group that cached B where it is now. *)
Definition settled : State float :=
  moveTo "A" 2 0
    (setScaleCenter (CArray (0, 0))
       (addScalePoint "A" EmptyString
          (createGroup [("A", (1, 0)); ("B", (0, 0x1.000008p+0))]
             ["A"; "B"]))).

(** The claim about the members other than the drag source, at B in a
    group with the members A and B: after [update], B is where the
    matrix takes its cached coordinates. *)
Definition B_from_cache (ao : Matrix -> usr float -> usr float)
  (s : State float) : Prop :=
  exists (s' : State float) (m : Matrix) (c : usr float),
    @prepare float number (library_with ao) s scale_A
    = Some (Ready (@TObject float (library_with ao) m))
    /\ @update float number (library_with ao) quiet s = Some s'
    /\ lookup "B" (coords s) = Some c
    /\ usrCoords (points s' "B") = matVecMult m c.

(** The scaling by 2 about the origin that [drifted] leads to. *)
Definition doubling : Matrix := ((1, 0, 0), (-0, 2, 0), (-0, 0, 2)).

End Scenes.

(** ** The rest of the group interface *)

(** The [action] argument of the generic role functions: 'rotation',
    'translation' or 'scale', which selects [this[action + 'Points']]. *)
Inductive Kind : Type := of_rotation | of_translation | of_scale.

(** [arr.splice(arr.indexOf(x), 1)] when [x] occurs in [arr]: the first
    occurrence goes. *)
Fixpoint remove_first (x : string) (arr : list string) : list string :=
  match arr with
  | [] => []
  | y :: r => if String.eqb y x then r else y :: remove_first x r
  end.

(** [Type.indexOf(arr, x)]: the first index of [x], if any. *)
Fixpoint indexOf (arr : list string) (x : string) : option nat :=
  match arr with
  | [] => None
  | y :: r =>
      if String.eqb y x then Some 0
      else match indexOf r x with Some i => Some (S i) | None => None end
  end.

Section Interface.
Context {num : Type} {N : Number num} {L : Library num}.

Definition actionPoints (k : Kind) (s : State num) : list string :=
  match k with
  | of_rotation => rotationPoints s
  | of_translation => translationPoints s
  | of_scale => scalePoints s
  end.

Definition set_actionPoints (k : Kind) (l : list string) (s : State num)
  : State num :=
  match k with
  | of_rotation => set_rotationPoints l s
  | of_translation => set_translationPoints l s
  | of_scale => set_scalePoints l s
  end.

Definition _addActionPoint (action : Kind) (point : string) (s : State num)
  : State num :=
  set_actionPoints action (actionPoints action s ++ [point]) s.

Definition _removeActionPoint (action : Kind) (point : string)
  (s : State num) : State num :=
  if isInArray (actionPoints action s) point
  then set_actionPoints action (remove_first point (actionPoints action s)) s
  else s.

(** [_setActionPoints(action, objects)] called with an array. *)
Definition _setActionPoints (action : Kind) (objects : list string)
  (s : State num) : State num :=
  fold_left (fun st o => _addActionPoint action o st) objects
    (set_actionPoints action [] s).

Definition setRotationPoints (objects : list string) (s : State num)
  : State num := _setActionPoints of_rotation objects s.

Definition setTranslationPoints (objects : list string) (s : State num)
  : State num := _setActionPoints of_translation objects s.

Definition removeRotationPoint (point : string) (s : State num)
  : State num := _removeActionPoint of_rotation point s.

Definition removeTranslationPoint (point : string) (s : State num)
  : State num := _removeActionPoint of_translation point s.

Definition removeScalePoint (point : string) (s : State num)
  : State num := _removeActionPoint of_scale point s.

(** [direction || 'xy'] *)
Definition direction_or_xy (direction : string) : string :=
  if String.eqb direction EmptyString then "xy"%string else direction.

(** [setScalePoints(objects, direction)] called with an array. *)
Definition setScalePoints (objects : list string) (direction : string)
  (s : State num) : State num :=
  _setActionPoints of_scale objects
    (fold_left
       (fun st o =>
          set_scaleDirections
            (assign o (direction_or_xy direction) (scaleDirections st)) st)
       objects s).

(** [addGroup(group)]: the members of [group], a group on the same board,
    are added one by one. *)
Definition addGroup (group : State num) (s : State num) : State num :=
  fold_left (fun st el => addPoint el st) (objects group) s.

(** [delete arr[i]]: the entry at [i] goes. The slot it leaves empty is
    not listed: [groups] holds the entries that are there, which is what
    [indexOf], [push] and the enumeration of the array see. *)
Definition delete_at (i : nat) (arr : list string) : list string :=
  firstn i arr ++ skipn (S i) arr.

(** [ungroup()]: in every member the first entry of [p.groups] that is
    the id of the group is deleted, then the group is left without
    members. [p.groups] is an array, as [addPoint] leaves it. *)
Definition ungroup (s : State num) : State num :=
  set_objects []
    (fold_left
       (fun st el =>
          match indexOf (groups (points st el)) (group_id st) with
          | Some i => set_groups el (delete_at i (groups (points st el))) st
          | None => st
          end)
       (objects s) s).

(** The calls that configure a group. *)
Inductive Call : Type :=
| call_addPoint (p : string)
| call_addPoints (l : list string)
| call_removePoint (p : string)
| call_setRotationCenter (c : Center num)
| call_setScaleCenter (c : Center num)
| call_setRotationPoints (l : list string)
| call_addRotationPoint (p : string)
| call_removeRotationPoint (p : string)
| call_setTranslationPoints (l : list string)
| call_addTranslationPoint (p : string)
| call_removeTranslationPoint (p : string)
| call_setScalePoints (l : list string) (direction : string)
| call_addScalePoint (p : string) (direction : string)
| call_removeScalePoint (p : string).

Definition call (s : State num) (c : Call) : State num :=
  match c with
  | call_addPoint p => addPoint p s
  | call_addPoints l => addPoints l s
  | call_removePoint p => removePoint p s
  | call_setRotationCenter c => setRotationCenter c s
  | call_setScaleCenter c => setScaleCenter c s
  | call_setRotationPoints l => setRotationPoints l s
  | call_addRotationPoint p => addRotationPoint p s
  | call_removeRotationPoint p => removeRotationPoint p s
  | call_setTranslationPoints l => setTranslationPoints l s
  | call_addTranslationPoint p => addTranslationPoint p s
  | call_removeTranslationPoint p => removeTranslationPoint p s
  | call_setScalePoints l d => setScalePoints l d s
  | call_addScalePoint p d => addScalePoint p d s
  | call_removeScalePoint p => removeScalePoint p s
  end.

Definition calls (cs : list Call) (s : State num) : State num :=
  fold_left call cs s.

(** The ids of the points a call makes members. *)
Definition joining (c : Call) : list string :=
  match c with
  | call_addPoint p => [p]
  | call_addPoints l => l
  | _ => []
  end.

(** What the update cycle relies on: the keys of [objects] are distinct,
    every member has its entry in the cache, every scale point has its
    entry in [scaleDirections]. *)
Definition ready (s : State num) : Prop :=
  NoDup (objects s)
  /\ (forall el, In el (objects s) -> lookup el (coords s) <> None)
  /\ (forall p, In p (scalePoints s) ->
                lookup p (scaleDirections s) <> None).
End Interface.

Arguments Call num : clear implicits.

(** ** More concrete groups *)
Module Cases.
Import JS.
Local Open Scope string_scope.
Local Open Scope float_scope.

(** The square, marked for an update although no point has moved. *)
Definition resting : State float := set_needsUpdate true Scenes.square_group.

(** A has lost its translation role and is dragged. *)
Definition no_role : State float :=
  moveTo "A" 1 3 (removeTranslationPoint "A" Scenes.square_group).

(** The element [p] is deleted from the board, as far as the group can
    see: [board.objects[p]] is gone, the point object is still there. *)
Definition leaves_board (p : string) (s : State float) : State float :=
  mkState (group_id s) (objects s) (coords s) (needsUpdate s)
    (rotationCenter s) (scaleCenter s) (rotationPoints s)
    (translationPoints s) (scalePoints s) (scaleDirections s)
    (delete p (board_objects s)) (points s).

(** A is dragged after C has been deleted from the board. *)
Definition gone : State float := leaves_board "C" Scenes.dragged.

(** A configuration of the square through the interface. *)
Definition configuration : list (Call float) :=
  [ call_addPoints ["A"; "B"; "C"; "D"];
    call_addScalePoint "B" EmptyString;
    call_setScaleCenter (CArray (0, 0));
    call_removePoint "D";
    call_setRotationPoints ["C"];
    call_removeTranslationPoint "C" ].

Definition configured : State float :=
  calls configuration (new_Group "g" (keys Scenes.square)
                         (heap_of Scenes.square)).
End Cases.

(** ** Events and listeners (the environment helpers)

    The helpers that follow [JXG.Group] in the source file: the kind of
    an event, the position it carries, and the list of listeners an
    owner keeps. *)
Module Env.

(** An entry of [evt.touches]: its [clientX] and [clientY]. *)
Record Touch : Type := mkTouch {
  touch_clientX : Z;
  touch_clientY : Z
}.

(** The properties of an event the helpers read. A missing property is
    [None]; a hole in a touch list is [None] as well. *)
Record Event : Type := mkEvent {
  touches : option (list (option Touch));        (* [evt.touches] *)
  changedTouches : option (list (option Touch));
  pointerId : option Z;
  isPrimary : bool;
  clientX : Z;
  clientY : Z
}.

Definition isTouchEvent (evt : Event) : bool :=
  match touches evt with Some _ => true | None => false end.

Definition isPointerEvent (evt : Event) : bool :=
  match pointerId evt with Some _ => true | None => false end.

Definition isMouseEvent (evt : Event) : bool :=
  negb (isTouchEvent evt) && negb (isPointerEvent evt).

Definition getNumberOfTouchPoints (evt : Event) : Z :=
  match touches evt with
  | Some l => Z.of_nat (length l)
  | None => (-1)%Z
  end.

Definition isFirstTouch (evt : Event) : bool :=
  let touchPoints := getNumberOfTouchPoints evt in
  if isPointerEvent evt then isPrimary evt else Z.eqb touchPoints 1.

(** The first entry of a touch list that is not a hole, if any. *)
Fixpoint first_touch (l : list (option Touch)) : option Touch :=
  match l with
  | [] => None
  | Some t :: _ => Some t
  | None :: r => first_touch r
  end.

(** [getPosition(e, index)] for an event [e] that is given. [index] is
    [None] when it is omitted; reading [clientX] of [undefined], which a
    bad index leads to, is [None]. *)
Definition getPosition (e : Event) (index : option Z) : option (Z * Z) :=
  let evtTouches :=
    match touches e with
    | Some [] => changedTouches e
    | other => other
    end in
  let here := Some (clientX e, clientY e) in
  let source :=
    match index, evtTouches with
    | Some i, Some l =>
        if Z.eqb i (-1) then
          match first_touch l with
          | Some t => Some (touch_clientX t, touch_clientY t)
          | None => here
          end
        else if Z.ltb i 0 then None
        else
          match nth_error l (Z.to_nat i) with
          | Some (Some t) => Some (touch_clientX t, touch_clientY t)
          | _ => None
          end
    | _, _ => here
    end in
  match source with
  | Some (x, y) => Some (if Z.eqb x 0 then (0, 0)%Z else (x, y))
  | None => None
  end.

(** A listener as [addEvent] wraps it: the closure [el], told apart by a
    number, and [el.origin], the function it wraps. *)
Record Wrapper : Type := mkWrapper {
  wid : nat;
  origin : nat
}.

(** The value of [owner['x_internal' + type]]: the array [addEvent]
    keeps there, or another object, one that is no array and has no
    [length]. *)
Inductive Slot : Type :=
| SArray (l : list Wrapper)
| SOther.

(** What the helpers do to the DOM node and to the log. *)
Inductive Effect : Type :=
| addEventListener (type : string) (el : nat)
| attachEvent (type : string) (el : nat)
| removeEventListener (type : string) (el : nat)
| detachEvent (type : string) (el : nat)
| debug_no_such_type (type : string)
| debug_not_an_array (type : string)
| debug_no_such_function (fn : nat)
| debug_not_all_removed.

(** The methods a DOM node offers. *)
Record Node : Type := mkNode {
  modern : bool;          (* [addEventListener], [removeEventListener] *)
  legacy : bool           (* [attachEvent], [detachEvent] *)
}.

(** The owner, keyed by event type; the closures made so far; the
    effects so far, the latest first. *)
Record World : Type := mkWorld {
  owner : list (string * Slot);
  closures : nat;
  effects : list Effect
}.

Definition emit (fx : list Effect) (w : World) : World :=
  mkWorld (owner w) (closures w) (fx ++ effects w).

Definition on_node (obj : option Node) (m l : Effect) : list Effect :=
  match obj with
  | Some n => (if legacy n then [l] else []) ++ (if modern n then [m] else [])
  | None => []
  end.

(** [addEvent(obj, type, fn, owner)]; [push] on something that is no
    array is a [TypeError]. *)
Definition addEvent (obj : option Node) (type : string) (fn : nat)
  (w : World) : option World :=
  let el := mkWrapper (closures w) fn in
  match lookup type (owner w) with
  | Some SOther => None
  | slot =>
      let arr := match slot with Some (SArray l) => l | _ => [] end in
      Some (mkWorld (assign type (SArray (arr ++ [el])) (owner w))
              (S (closures w))
              (on_node obj (addEventListener type (wid el))
                 (attachEvent type (wid el)) ++ effects w))
  end.

(** [Type.indexOf(arr, fn, 'origin')] *)
Fixpoint indexOf_origin (arr : list Wrapper) (fn : nat) : option nat :=
  match arr with
  | [] => None
  | el :: r =>
      if Nat.eqb (origin el) fn then Some 0
      else match indexOf_origin r fn with
           | Some i => Some (S i)
           | None => None
           end
  end.

(** [arr.splice(i, 1)] *)
Definition splice1 (i : nat) (arr : list Wrapper) : list Wrapper :=
  firstn i arr ++ skipn (S i) arr.

(** [removeEvent(obj, type, fn, owner)] for an owner that exists. *)
Definition removeEvent (obj : option Node) (type : string) (fn : nat)
  (w : World) : World :=
  match lookup type (owner w) with
  | None => emit [debug_no_such_type type] w
  | Some SOther => emit [debug_not_an_array type] w
  | Some (SArray arr) =>
      match indexOf_origin arr fn with
      | None => emit [debug_no_such_function fn] w
      | Some i =>
          match nth_error arr i with
          | None => w
          | Some el =>
              mkWorld (assign type (SArray (splice1 i arr)) (owner w))
                (closures w)
                (on_node obj (removeEventListener type (wid el))
                   (detachEvent type (wid el)) ++ effects w)
          end
      end
  end.

(** The loop of [removeAllEvents], [i] running from [n - 1] down to 0;
    [owner[...][i].origin] of a missing entry is a [TypeError]. *)
Fixpoint removeAll_loop (obj : option Node) (type : string) (n : nat)
  (w : World) : option World :=
  match n with
  | 0 => Some w
  | S i =>
      match lookup type (owner w) with
      | Some (SArray arr) =>
          match nth_error arr i with
          | Some el =>
              removeAll_loop obj type i (removeEvent obj type (origin el) w)
          | None => None
          end
      | _ => None
      end
  end.

Definition removeAllEvents (obj : option Node) (type : string) (w : World)
  : option World :=
  match lookup type (owner w) with
  | Some (SArray arr) =>
      match removeAll_loop obj type (length arr) w with
      | Some w' =>
          match lookup type (owner w') with
          | Some (SArray (_ :: _)) => Some (emit [debug_not_all_removed] w')
          | _ => Some w'
          end
      | None => None
      end
  | _ => Some w
  end.

(** The closures taken off the node, as the effects tell. *)
Definition taken_off (type : string) (fx : list Effect) : list nat :=
  flat_map
    (fun e =>
       match e with
       | removeEventListener t el =>
           if String.eqb t type then [el] else []
       | _ => []
       end) fx.

(** An effect that takes a listener off the node. *)
Definition removal (e : Effect) : Prop :=
  match e with
  | removeEventListener _ _ | detachEvent _ _ => True
  | _ => False
  end.

(** A node of a current browser. *)
Definition div : option Node := Some (mkNode true false).
End Env.

(** ** The axes of the 3D box ([src/3d/box3d.js])

    [ThreeD.createAxes] as the elements it asks the view and the board
    to create, in order, under the keys it files them with; their visual
    attributes are left out. *)
Module Box3d.
Section Axes.
Context {num : Type} {N : Number num}.

(** An array of three numbers: x, y, z. *)
Definition Vec : Type := (num * num * num)%type.

(** [v[i]], for the indices 0, 1, 2 the code uses. *)
Definition get (v : Vec) (i : nat) : num :=
  match i with
  | 0 => fst (fst v)
  | 1 => snd (fst v)
  | _ => snd v
  end.

(** [v[i] = x], for the indices 0, 1, 2 the code uses. *)
Definition put (v : Vec) (i : nat) (x : num) : Vec :=
  match i with
  | 0 => (x, snd (fst v), snd v)
  | 1 => (fst (fst v), x, snd v)
  | _ => (fst (fst v), snd (fst v), x)
  end.

Definition zeros : Vec := (fzero, fzero, fzero).

(** Where the corners come from: [view.D3.bbox3d], a list of three
    intervals, or else [parents[1]] and [parents[2]]. *)
Inductive Box : Type :=
| FromView (bbox3d : (num * num) * (num * num) * (num * num))
| FromParents (p1 p2 : Vec).

(** The first loop: [rear] and [front]. *)
Definition corners (b : Box) : Vec * Vec :=
  fold_left
    (fun (rf : Vec * Vec) (i : nat) =>
       let '(rear, front) := rf in
       match b with
       | FromView bb =>
           let interval :=
             match i with
             | 0 => fst (fst bb)
             | 1 => snd (fst bb)
             | _ => snd bb
             end in
           (put rear i (fst interval), put front i (snd interval))
       | FromParents p1 p2 => (put rear i (get p1 i), put front i (get p2 1))
       end)
    [0; 1; 2] (zeros, zeros).

(** What is created. An axis or a plane of the view carries its
    coordinates; the ticks name the axis they belong to; the
    intersection has the two entries of [axes] it was given, [None] for
    [undefined]. *)
Inductive Created : Type :=
| axis3d (from to : Vec)
| ticks (axis : string) (tickEndings : nat * nat)
| intersection (a b : option string)
| plane3d (from vec1 vec2 : Vec) (range1 range2 : num * num).

Definition directions : list string := ["x"; "y"; "z"]%string.
Definition sides : list string := ["Rear"; "Front"]%string.
Definition suffixAxis : string := "Axis".

Definition direction (i : nat) : string := nth i directions EmptyString.
Definition side (j : nat) : string := nth j sides EmptyString.

(** [dir.toUpperCase()] on the three directions. *)
Definition toUpperCase (dir : string) : string :=
  if String.eqb dir "x" then "X"%string
  else if String.eqb dir "y" then "Y"%string
  else if String.eqb dir "z" then "Z"%string
  else dir.

(** [axes[key]] as an operand: the key if the entry is there. *)
Definition entry (key : string) (axes : list (string * Created))
  : option string :=
  match lookup key axes with Some _ => Some key | None => None end.

(** The loop "Axes", for the direction [i]. *)
Definition axis_step (centered : bool) (rear front : Vec)
  (axes : list (string * Created)) (i : nat) : list (string * Created) :=
  let dir := direction i in
  let na := (dir ++ suffixAxis)%string in
  if centered then
    let from := zeros in
    let to := put zeros i (get front i) in
    assign na (axis3d from to) axes
  else
    let na := (na ++ "Border")%string in
    let from := rear in
    let to := front in
    let '(from, to) :=
      if Nat.eqb i 2
      then (put from 1 (get front 1), put to 0 (get rear 0))
      else (put from i (get front i), put to 2 (get rear 2)) in
    let to := put to i (get front i) in
    let axes := assign na (axis3d from to) axes in
    let tickEndings := if Nat.eqb i 2 then (1, 0) else (0, 1) in
    assign (na ++ "Ticks")%string (ticks na tickEndings) axes.

(** The loop "Planes", for the direction [i] and the side [j]. *)
Definition plane_step (rear front : Vec) (axes : list (string * Created))
  (ij : nat * nat) : list (string * Created) :=
  let '(i, j) := ij in
  let i1 := (i + 1) mod 3 in
  let i2 := (i + 2) mod 3 in
  let dir := direction i in
  let from := put zeros i (if Nat.eqb j 0 then get rear i else get front i) in
  let vec1 := put zeros i1 fone in
  let vec2 := put zeros i2 fone in
  let range1 := (get rear i1, get front i1) in
  let range2 := (get rear i2, get front i2) in
  let na := (dir ++ "Plane" ++ side j)%string in
  assign na (plane3d from vec1 vec2 range1 range2) axes.

(** The loop "Axes on planes", for [i], [j] and [k]. *)
Definition plane_axis_name (i j k : nat) : string :=
  (direction i ++ "Plane" ++ side j
   ++ toUpperCase (direction ((i + k) mod 3)) ++ "Axis")%string.

Definition plane_axis_step (rear front : Vec)
  (axes : list (string * Created)) (ijk : nat * nat * nat)
  : list (string * Created) :=
  let '(i, j, k) := ijk in
  let i1 := (i + k) mod 3 in
  let na := plane_axis_name i j k in
  let here := if Nat.eqb j 0 then get rear i else get front i in
  let from := put (put zeros i here) i1 (get rear i1) in
  let to := put (put zeros i here) i1 (get front i1) in
  assign na (axis3d from to) axes.

(** The pairs and triples the nested loops run through, in order. *)
Definition plane_indices : list (nat * nat) :=
  flat_map (fun i => map (fun j => (i, j)) [0; 1]) [0; 1; 2].

Definition plane_axis_indices : list (nat * nat * nat) :=
  flat_map
    (fun i => flat_map (fun j => map (fun k => (i, j, k)) [1; 2]) [0; 1])
    [0; 1; 2].

(** [createAxes]; [centered] says whether [attr.axesposition] is
    'center'. *)
Definition createAxes (b : Box) (centered : bool)
  : list (string * Created) :=
  let '(rear, front) := corners b in
  let axes := fold_left (axis_step centered rear front) [0; 1; 2] [] in
  let axes :=
    assign "O"
      (intersection (entry (direction 0 ++ suffixAxis) axes)
         (entry (direction 1 ++ suffixAxis) axes)) axes in
  let axes := fold_left (plane_step rear front) plane_indices axes in
  fold_left (plane_axis_step rear front) plane_axis_indices axes.

(** The coordinate along which the border axis of direction [i] runs. *)
Definition runs_along (i : nat) : nat :=
  match i with 0 => 1 | 1 => 0 | _ => 2 end.

(** A point all of whose coordinates are taken from the two corners. *)
Definition is_corner (rear front v : Vec) : Prop :=
  forall k, k < 3 -> get v k = get rear k \/ get v k = get front k.
End Axes.
End Box3d.

(** ** An owner with listeners *)
Module EnvCases.
Import Env.

(** Three listeners for mousemove: the function 7 registered twice,
    with the function 8 in between. *)
Definition handlers : list Wrapper :=
  [mkWrapper 0 7; mkWrapper 1 8; mkWrapper 2 7].

Definition listening : World :=
  mkWorld [("mousemove"%string, SArray handlers)] 3
    [addEventListener "mousemove" 2; addEventListener "mousemove" 1;
     addEventListener "mousemove" 0].
End EnvCases.

(** * Properties *)

(** ** Arrays and objects *)

Lemma isInArray_In (l : list string) (x : string) :
  isInArray l x = true <-> In x l.
Proof.
  unfold isInArray. rewrite existsb_exists. split.
  - intros [y [Hy E]]. apply String.eqb_eq in E. now subst.
  - intros H. exists x. split; [assumption | apply String.eqb_refl].
Qed.

Lemma isInArray_false (l : list string) (x : string) :
  isInArray l x = false <-> ~ In x l.
Proof.
  rewrite <- isInArray_In. destruct (isInArray l x); split; congruence.
Qed.

Lemma In_delete (k x : string) (o : list string) :
  In x (delete k o) <-> In x o /\ x <> k.
Proof.
  unfold delete. rewrite filter_In, negb_true_iff, String.eqb_neq.
  reflexivity.
Qed.

Lemma NoDup_delete (k : string) (o : list string) :
  NoDup o -> NoDup (delete k o).
Proof. apply NoDup_filter. Qed.

Lemma In_add_key (k x : string) (o : list string) :
  In x (add_key k o) <-> In x o \/ x = k.
Proof.
  unfold add_key. destruct (isInArray o k) eqn:E.
  - apply isInArray_In in E. split; [tauto | intros [H | ->]; assumption].
  - rewrite in_app_iff. simpl. split.
    + intros [H | [H | []]]; auto.
    + intros [H | H]; auto.
Qed.

Lemma NoDup_add_key (k : string) (o : list string) :
  NoDup o -> NoDup (add_key k o).
Proof.
  intros H. unfold add_key. destruct (isInArray o k) eqn:E; [assumption |].
  apply isInArray_false in E.
  apply NoDup_app; [assumption | repeat constructor; intros [] | ].
  intros x Hx [<- | []]. contradiction.
Qed.

Section ObjectFacts.
Variable V : Type.
Implicit Types (o : list (string * V)) (k : string) (v : V).

Lemma keys_assign k v o : keys (assign k v o) = add_key k (keys o).
Proof.
  unfold add_key, isInArray, keys.
  induction o as [| [k' v'] r IH]; simpl; [reflexivity |].
  rewrite (String.eqb_sym k k').
  destruct (String.eqb k' k) eqn:E; simpl.
  - apply String.eqb_eq in E. now subst.
  - rewrite IH. now destruct (existsb (String.eqb k) (map fst r)).
Qed.

Lemma lookup_assign_same k v o : lookup k (assign k v o) = Some v.
Proof.
  induction o as [| [k' v'] r IH]; simpl.
  - now rewrite String.eqb_refl.
  - destruct (String.eqb k' k) eqn:E; simpl.
    + now rewrite String.eqb_refl.
    + now rewrite E.
Qed.

Lemma lookup_assign_other k k' v o :
  k' <> k -> lookup k' (assign k v o) = lookup k' o.
Proof.
  intros Hne. induction o as [| [k0 v0] r IH]; simpl.
  - apply String.eqb_neq in Hne. rewrite String.eqb_sym in Hne.
    now rewrite Hne.
  - destruct (String.eqb k0 k) eqn:E; simpl.
    + apply String.eqb_eq in E. subst k0.
      assert (E' : String.eqb k k' = false)
        by (apply String.eqb_neq; congruence).
      now rewrite E'.
    + now rewrite IH.
Qed.

Lemma lookup_In_keys k o : In k (keys o) <-> lookup k o <> None.
Proof.
  unfold keys. induction o as [| [k0 v0] r IH]; simpl.
  - split; [intros [] | congruence].
  - destruct (String.eqb k0 k) eqn:E.
    + apply String.eqb_eq in E. split; [congruence | now left].
    + apply String.eqb_neq in E. rewrite <- IH. split; [| now right].
      intros [H | H]; [contradiction | assumption].
Qed.
End ObjectFacts.

(** ** Membership and the cache of coordinates *)

Section Membership.
Context {num : Type} {N : Number num} {L : Library num}.
Implicit Types (s : State num) (p el : string).

Lemma isInArray_add_key p (o : list string) :
  isInArray (add_key p o) p = true.
Proof. apply isInArray_In, In_add_key. now right. Qed.

Lemma objects_addPoint p s :
  objects (addPoint p s) = add_key p (objects s).
Proof.
  unfold addPoint, _updateCoordsCache. simpl.
  rewrite isInArray_add_key. now destruct (String.eqb p EmptyString).
Qed.

Lemma coords_addPoint p s :
  coords (addPoint p s) =
  if String.eqb p EmptyString then coords s
  else assign p (usrCoords (points s p)) (coords s).
Proof.
  unfold addPoint, _updateCoordsCache. simpl.
  rewrite isInArray_add_key. now destruct (String.eqb p EmptyString).
Qed.

Lemma translationPoints_addPoint p s :
  translationPoints (addPoint p s) = translationPoints s ++ [p].
Proof.
  unfold addPoint, _updateCoordsCache. simpl.
  rewrite isInArray_add_key. now destruct (String.eqb p EmptyString).
Qed.


Lemma coords_removePoint p s : coords (removePoint p s) = coords s.
Proof. reflexivity. Qed.

Lemma cached_new_Group id board (h : Heap num) :
  cached (new_Group id board h).
Proof. repeat split; simpl; try constructor. intros el []. Qed.

Lemma cached_addPoint p s :
  p <> EmptyString -> cached s -> cached (addPoint p s).
Proof.
  intros Hp (Ho & Hc & Hin). unfold cached.
  rewrite objects_addPoint, coords_addPoint.
  apply String.eqb_neq in Hp. rewrite Hp, keys_assign.
  repeat split.
  - now apply NoDup_add_key.
  - now apply NoDup_add_key.
  - intros el Hel. apply In_add_key in Hel. apply In_add_key.
    destruct Hel as [Hel | ->]; [left; now apply Hin | now right].
Qed.

Lemma cached_removePoint p s : cached s -> cached (removePoint p s).
Proof.
  intros (Ho & Hc & Hin). repeat split; simpl.
  - now apply NoDup_delete.
  - assumption.
  - intros el Hel. apply In_delete in Hel. now apply Hin.
Qed.

Lemma cached_run (ops : list Op) s :
  Forall (fun p => p <> EmptyString) (added ops) ->
  cached s -> cached (run ops s).
Proof.
  revert s. induction ops as [| [p | p] r IH]; intros s Hne Hs; simpl in *.
  - assumption.
  - inversion Hne; subst. apply IH; [assumption |].
    now apply cached_addPoint.
  - apply IH; [assumption |]. now apply cached_removePoint.
Qed.

Lemma centroid_fold (l : list (string * usr num)) (a b : num) (n : nat) :
  fold_left
    (fun (acc : num * num * nat) (e : string * usr num) =>
       let '(c0, c1, len) := acc in
       (fadd c0 (usr_x (snd e)), fadd c1 (usr_y (snd e)), S len))
    l (a, b, n) =
  (fold_left fadd (map (@usr_x num) (map snd l)) a,
   fold_left fadd (map (@usr_y num) (map snd l)) b,
   n + length l).
Proof.
  revert a b n. induction l as [| e r IH]; intros a b n; simpl.
  - now rewrite Nat.add_0_r.
  - rewrite IH. now rewrite Nat.add_succ_r.
Qed.

Lemma centroid_is_mean s :
  _update_centroid_center s = arithmetic_mean (map snd (coords s)).
Proof.
  unfold _update_centroid_center. rewrite centroid_fold. simpl.
  destruct (coords s) as [| e r]; simpl; [reflexivity |].
  unfold sum. simpl. now rewrite length_map.
Qed.
End Membership.

(** ** Telling two values apart by a test *)

Lemma differ (A : Type) (test : A -> A -> bool) (a b : A) :
  test a b = false -> test b b = true -> a <> b.
Proof. intros Hab Hbb E. subst a. congruence. Qed.

(** ** The centroid *)

Lemma filter_all (A : Type) (f : A -> bool) (l : list A) :
  (forall x, In x l -> f x = true) -> filter f l = l.
Proof.
  induction l as [| a r IH]; simpl; intros H; [reflexivity |].
  rewrite (H a) by (now left). f_equal. apply IH. intros x Hx.
  apply H. now right.
Qed.

(** What [_update_centroid_center] computes: the center is the
    arithmetic mean of all entries of the cache of coordinates; the live
    coordinates play no part; with an empty cache it is (0, 0), nothing
    being divided; as long as the cache holds entries of current members
    only, it is the mean over the current members; for the cache (0,0),
    (2,0), (2,2), (0,2) it is (1, 1). *)
Theorem centroid_center_mean_of_cache :
  (forall (num : Type) (N : Number num) (L : Library num) (s : State num),
      _update_centroid_center s = arithmetic_mean (map snd (coords s)))
  /\ (forall (num : Type) (N : Number num) (L : Library num)
        (s : State num) (h : Heap num),
      _update_centroid_center (set_points h s) = _update_centroid_center s)
  /\ (forall (num : Type) (N : Number num) (L : Library num) (s : State num),
      _update_centroid_center (set_coords [] s) = (fzero, fzero))
  /\ (forall (num : Type) (N : Number num) (L : Library num) (s : State num),
      (forall el, In el (keys (coords s)) -> In el (objects s)) ->
      _update_centroid_center s = arithmetic_mean (member_snapshots s))
  /\ _update_centroid_center Scenes.square_group = (1, 1)%float.
Proof.
  split; [| split; [| split; [| split]]].
  - intros. apply centroid_is_mean.
  - intros. reflexivity.
  - intros. reflexivity.
  - intros num N L s Hkeys. rewrite centroid_is_mean.
    unfold member_snapshots. rewrite filter_all; [reflexivity |].
    intros [k v] Hin. apply isInArray_In, Hkeys. simpl.
    unfold keys. now apply (in_map fst) in Hin.
  - vm_compute. reflexivity.
Qed.

Lemma centroid_center_mean_of_cache_witness :
  (forall el, In el (keys (coords Scenes.square_group)) ->
              In el (objects Scenes.square_group))
  /\ _update_centroid_center Scenes.square_group
     = arithmetic_mean (member_snapshots Scenes.square_group).
Proof.
  assert (H : forall el, In el (keys (coords Scenes.square_group)) ->
                         In el (objects Scenes.square_group))
    by (intros el Hel; exact Hel).
  split; [exact H |].
  exact (proj1 (proj2 (proj2 (proj2 centroid_center_mean_of_cache)))
           float JS.number JS.library Scenes.square_group H).
Defined.

(** C3, at the failing input: the function documented to give the
    centroid of the group sums over the cache, which [removePoint], said
    to remove a point from the group, does not prune. With A at (0,0)
    and B at (2,0) grouped and B removed, the group is A alone, cached
    at (0,0), so that its centroid is (0, 0); the code returns (1, 0). *)
Lemma centroid_counts_removed_member :
  objects Scenes.after_removal = ["A"%string]
  /\ member_snapshots Scenes.after_removal = [(1, 0, 0)%float]
  /\ arithmetic_mean (member_snapshots Scenes.after_removal) = (0, 0)%float
  /\ _update_centroid_center Scenes.after_removal = (1, 0)%float
  /\ _update_centroid_center Scenes.after_removal
     <> arithmetic_mean (member_snapshots Scenes.after_removal).
Proof.
  repeat split; try (vm_compute; reflexivity).
  apply (differ JS.pair_eqb); vm_compute; reflexivity.
Qed.

(** ** The cache under [addPoint] and [removePoint] *)

(** C9, as the code has it: after any sequence of [addPoint] and
    [removePoint] calls (on points with a non-empty id) every current
    member has exactly one entry in the cache; [addPoint] writes the
    entry of the point from its live coordinates; [removePoint] leaves
    the cache as it is. *)
Theorem members_have_one_cache_entry
  (num : Type) (N : Number num) (L : Library num)
  (ops : list Op) (id : string) (board : list string) (h : Heap num) :
  Forall (fun p => p <> EmptyString) (added ops) ->
  (forall el, In el (objects (run ops (new_Group id board h))) ->
     count_occ string_dec
       (keys (coords (run ops (new_Group id board h)))) el = 1)
  /\ (forall (s : State num) p, p <> EmptyString ->
        lookup p (coords (addPoint p s)) = Some (usrCoords (points s p)))
  /\ (forall (s : State num) p, coords (removePoint p s) = coords s).
Proof.
  intros Hne. repeat split.
  - intros el Hel.
    destruct (cached_run ops Hne (cached_new_Group id board h))
      as (_ & Hc & Hin).
    apply (proj1 (NoDup_count_occ' string_dec _) Hc). now apply Hin.
  - intros s p Hp. rewrite coords_addPoint.
    apply String.eqb_neq in Hp. rewrite Hp. apply lookup_assign_same.
Qed.

Lemma members_have_one_cache_entry_witness :
  Forall (fun p => p <> EmptyString) (added [Add "A"; Add "B"; Remove "A"])
  /\ (forall el,
        In el (objects (run [Add "A"; Add "B"; Remove "A"]
                          (new_Group "g" ["A"; "B"]%string
                             (JS.heap_of Scenes.square)))) ->
        count_occ string_dec
          (keys (coords (run [Add "A"; Add "B"; Remove "A"]
                           (new_Group "g" ["A"; "B"]%string
                              (JS.heap_of Scenes.square))))) el = 1).
Proof.
  assert (H : Forall (fun p => p <> EmptyString)
                (added [Add "A"; Add "B"; Remove "A"]))
    by (repeat constructor; discriminate).
  split; [exact H |].
  exact (proj1 (@members_have_one_cache_entry float JS.number JS.library
                  [Add "A"; Add "B"; Remove "A"] "g" ["A"; "B"]%string
                  (JS.heap_of Scenes.square) H)).
Defined.

(** C9, refuted as stated: [removePoint] does not prune the cache. After
    A is added and removed again the group has no member, and the cache
    still holds the entry of A. *)
Lemma cache_keeps_removed_member :
  objects Scenes.emptied = []
  /\ keys (coords Scenes.emptied) = ["A"%string]
  /\ ~ (forall el, In el (keys (coords Scenes.emptied)) ->
                   In el (objects Scenes.emptied)).
Proof.
  repeat split.
  intros H. exact (H "A"%string (or_introl eq_refl)).
Qed.

(** ** Adding a member again *)



(** ** The drag classifier *)

Section Classifier.
Context {num : Type} {N : Number num} {L : Library num}.
Implicit Types (s : State num) (p el : string).

Lemma find_changed_filter s (els ch : list string) :
  find_changed s els = Some ch ->
  ch = filter (moved s) els
  /\ forall el, In el els -> exists c, lookup el (coords s) = Some c.
Proof.
  revert ch. induction els as [| el r IH]; simpl; intros ch H.
  - inversion H. split; [reflexivity | intros el []].
  - unfold moved at 1. destruct (lookup el (coords s)) as [c |] eqn:Hc;
      simpl in H; [| discriminate].
    destruct (find_changed s r) as [rest |]; simpl in H; [| discriminate].
    destruct (IH rest eq_refl) as [-> Hall]. inversion H; subst. split.
    + reflexivity.
    + intros x [<- | Hx]; [now exists c | now apply Hall].
Qed.

Lemma find_changed_total s (els : list string) :
  (forall el, In el els -> lookup el (coords s) <> None) ->
  find_changed s els = Some (filter (moved s) els).
Proof.
  induction els as [| el r IH]; simpl; intros H; [reflexivity |].
  unfold moved at 1.
  destruct (lookup el (coords s)) as [c |] eqn:Hc; simpl.
  - rewrite IH by (intros x Hx; apply H; now right). reflexivity.
  - exfalso. apply (H el); [now left | assumption].
Qed.

(** The first element a filter keeps: nothing before it passes the test. *)
Lemma filter_head (f : string -> bool) (l : list string) (x : string)
  (r : list string) :
  filter f l = x :: r ->
  exists pre post,
    l = pre ++ x :: post /\ f x = true
    /\ (forall y, In y pre -> f y = false) /\ filter f post = r.
Proof.
  induction l as [| a l IH]; simpl; intros H; [discriminate |].
  destruct (f a) eqn:Ha.
  - inversion H; subst. exists [], l. repeat split; auto. intros y [].
  - destruct (IH H) as (pre & post & -> & Hx & Hpre & Hpost).
    exists (a :: pre), post. repeat split; auto.
    intros y [<- | Hy]; auto.
Qed.

(** C2: when one member alone moved, the action follows the precedence
    rotation > scaling > translation. In particular a member that is a
    rotation point and a scale point, with both centers set, rotates the
    group and never scales it. *)
Theorem single_move_precedence s p :
  find_changed s (objects s) = Some [p] ->
  exists d,
    _update_find_drag_type s = Some d
    /\ drag_id d = p /\ changed d = [p]
    /\ (isInArray (rotationPoints s) p = true ->
        Type_exists (rotationCenter s) = true ->
        action d = rotation /\ action d <> scaling)
    /\ (isInArray (rotationPoints s) p && Type_exists (rotationCenter s)
        = false ->
        isInArray (scalePoints s) p = true ->
        Type_exists (scaleCenter s) = true ->
        action d = scaling)
    /\ (isInArray (rotationPoints s) p && Type_exists (rotationCenter s)
        = false ->
        isInArray (scalePoints s) p && Type_exists (scaleCenter s)
        = false ->
        isInArray (translationPoints s) p = true ->
        action d = translation)
    /\ (isInArray (rotationPoints s) p && Type_exists (rotationCenter s)
        = false ->
        isInArray (scalePoints s) p && Type_exists (scaleCenter s)
        = false ->
        isInArray (translationPoints s) p = false ->
        action d = nothing).
Proof.
  intros H. unfold _update_find_drag_type. rewrite H. simpl.
  eexists. split; [reflexivity |]. simpl.
  split; [reflexivity |]. split; [reflexivity |].
  split; [| split; [| split]].
  - intros Hr Hc. rewrite Hr, Hc. split; [reflexivity | discriminate].
  - intros Hr Hs Hc. rewrite Hr, Hs, Hc. reflexivity.
  - intros Hr Hs Ht. rewrite Hr, Hs, Ht. reflexivity.
  - intros Hr Hs Ht. rewrite Hr, Hs, Ht. reflexivity.
Qed.
End Classifier.

Lemma single_move_precedence_witness :
  find_changed Scenes.both_roles (objects Scenes.both_roles)
  = Some ["B"%string]
  /\ isInArray (rotationPoints Scenes.both_roles) "B" = true
  /\ isInArray (scalePoints Scenes.both_roles) "B" = true
  /\ Type_exists (rotationCenter Scenes.both_roles) = true
  /\ Type_exists (scaleCenter Scenes.both_roles) = true
  /\ exists d,
       _update_find_drag_type Scenes.both_roles = Some d
       /\ action d = rotation /\ action d <> scaling.
Proof.
  assert (H : find_changed Scenes.both_roles (objects Scenes.both_roles)
              = Some ["B"%string]) by (vm_compute; reflexivity).
  assert (Hr : isInArray (rotationPoints Scenes.both_roles) "B" = true)
    by reflexivity.
  assert (Hc : Type_exists (rotationCenter Scenes.both_roles) = true)
    by reflexivity.
  destruct (single_move_precedence Scenes.both_roles H)
    as (d & Hd & _ & _ & Hrot & _).
  repeat (split; [reflexivity |]).
  exists d. split; [exact Hd | exact (Hrot Hr Hc)].
Defined.

(** ** Applying the transformation *)

Section Applier.
Context {num : Type} {N : Number num} {L : Library num}.
Implicit Types (s : State num) (p el q : string) (d : Drag).

Lemma points_set_usrCoords_same s p (u : usr num) :
  points (set_usrCoords p u s) p = mkPoint u (groups (points s p)).
Proof. simpl. unfold store. now rewrite String.eqb_refl. Qed.

Lemma points_set_usrCoords_other s p q (u : usr num) :
  q <> p -> points (set_usrCoords p u s) q = points s q.
Proof.
  intros H. simpl. unfold store. apply String.eqb_neq in H. now rewrite H.
Qed.

Lemma groups_set_usrCoords s p q (u : usr num) :
  groups (points (set_usrCoords p u s) q) = groups (points s q).
Proof.
  simpl. unfold store. destruct (String.eqb q p) eqn:E; [| reflexivity].
  apply String.eqb_eq in E. now subst.
Qed.

(** One turn of the loop under a translation. *)
Lemma apply_body_translation d (t0 t1 : num) el s (c : usr num) :
  action d = translation ->
  lookup el (coords s) = Some c ->
  apply_body d (TArray t0 t1) el s =
  Some (if isInArray (board_objects s) el then
          if negb (String.eqb el (drag_id d))
             && negb (isInArray (changed d) el)
          then set_usrCoords el
                 (setCoordinates2 (fadd (usr_x c) t0, fadd (usr_y c) t1)) s
          else s
        else set_objects (delete el (objects s)) s).
Proof.
  intros Ha Hc. unfold apply_body. rewrite Ha, Hc. simpl.
  destruct (isInArray (board_objects s) el); [| reflexivity].
  destruct (String.eqb el (drag_id d)); simpl; [reflexivity |].
  destruct (isInArray (changed d) el); reflexivity.
Qed.

(** One turn of the loop under a rotation or a scaling. *)
Lemma apply_body_matrix d (m : matrix) el s (c : usr num) :
  action d = rotation \/ action d = scaling ->
  lookup (drag_id d) (coords s) = Some c ->
  apply_body d (TObject m) el s =
  Some (if isInArray (board_objects s) el then
          if String.eqb el (drag_id d)
          then set_usrCoords el (setCoordinates3 (Mat_matVecMult m c)) s
          else set_usrCoords el (applyOnce m (usrCoords (points s el))) s
        else set_objects (delete el (objects s)) s).
Proof.
  intros Ha Hc. unfold apply_body.
  destruct (isInArray (board_objects s) el); [| reflexivity].
  destruct (String.eqb el (drag_id d)) eqn:E; simpl.
  - apply String.eqb_eq in E. subst el. rewrite Hc. simpl.
    destruct Ha as [-> | ->]; reflexivity.
  - destruct Ha as [-> | ->]; reflexivity.
Qed.

Lemma apply_loop_translation d (t0 t1 : num) (els : list string) s :
  action d = translation ->
  (forall el, In el els -> lookup el (coords s) <> None) ->
  exists s',
    apply_loop d (TArray t0 t1) els s = Some s'
    /\ coords s' = coords s
    /\ board_objects s' = board_objects s
    /\ (forall q, groups (points s' q) = groups (points s q))
    /\ (forall q,
          ~ In q els \/ isInArray (board_objects s) q = false
          \/ q = drag_id d \/ isInArray (changed d) q = true ->
          points s' q = points s q)
    /\ (forall q c,
          In q els -> isInArray (board_objects s) q = true ->
          q <> drag_id d -> isInArray (changed d) q = false ->
          lookup q (coords s) = Some c ->
          usrCoords (points s' q)
          = setCoordinates2 (fadd (usr_x c) t0, fadd (usr_y c) t1)).
Proof.
  intros Ha. revert s.
  induction els as [| el r IH]; intros s Hall.
  - exists s. simpl. repeat split; auto. intros q c [].
  - destruct (lookup el (coords s)) as [c0 |] eqn:Hc0;
      [| exfalso; apply (Hall el); [now left | assumption]].
    simpl. rewrite apply_body_translation with (c := c0) by assumption.
    simpl.
    set (s1 := if isInArray (board_objects s) el then
                 if negb (String.eqb el (drag_id d))
                    && negb (isInArray (changed d) el)
                 then set_usrCoords el
                        (setCoordinates2
                           (fadd (usr_x c0) t0, fadd (usr_y c0) t1)) s
                 else s
               else set_objects (delete el (objects s)) s).
    assert (Hco : coords s1 = coords s).
    { subst s1. destruct (isInArray (board_objects s) el); [| reflexivity].
      destruct (negb (String.eqb el (drag_id d))
                && negb (isInArray (changed d) el)); reflexivity. }
    assert (Hbo : board_objects s1 = board_objects s).
    { subst s1. destruct (isInArray (board_objects s) el); [| reflexivity].
      destruct (negb (String.eqb el (drag_id d))
                && negb (isInArray (changed d) el)); reflexivity. }
    assert (Hgr : forall q, groups (points s1 q) = groups (points s q)).
    { intros q. subst s1.
      destruct (isInArray (board_objects s) el); [| reflexivity].
      destruct (negb (String.eqb el (drag_id d))
                && negb (isInArray (changed d) el)); [| reflexivity].
      apply groups_set_usrCoords. }
    assert (Hother : forall q, q <> el -> points s1 q = points s q).
    { intros q Hq. subst s1.
      destruct (isInArray (board_objects s) el); [| reflexivity].
      destruct (negb (String.eqb el (drag_id d))
                && negb (isInArray (changed d) el)); [| reflexivity].
      now apply points_set_usrCoords_other. }
    destruct (IH s1) as (s' & Hrun & Hc' & Hb' & Hg' & Hsame & Hmoved).
    { intros x Hx. rewrite Hco. apply Hall. now right. }
    exists s'. split; [exact Hrun |].
    split; [congruence |]. split; [congruence |].
    split; [intros q; now rewrite Hg', Hgr |]. split.
    + intros q Hq. rewrite Hsame.
      * destruct (string_dec q el) as [-> | Hne]; [| now apply Hother].
        subst s1. destruct Hq as [Hq | [Hq | [Hq | Hq]]].
        -- exfalso. apply Hq. now left.
        -- now rewrite Hq.
        -- destruct (isInArray (board_objects s) el); [| reflexivity].
           subst el. now rewrite String.eqb_refl.
        -- destruct (isInArray (board_objects s) el); [| reflexivity].
           rewrite Hq. now rewrite andb_false_r.
      * rewrite Hbo. destruct Hq as [Hq | Hq]; [| now right].
        left. intros Hin. apply Hq. now right.
    + intros q c Hin Hb Hne Hch Hc.
      destruct (in_dec string_dec q r) as [Hr | Hr].
      * apply Hmoved; try assumption; congruence.
      * destruct Hin as [<- | Hin]; [| contradiction].
        rewrite Hsame by (now left). subst s1. rewrite Hb.
        apply String.eqb_neq in Hne. rewrite Hne, Hch. cbn [negb andb].
        rewrite points_set_usrCoords_same.
        assert (c0 = c) by congruence. subst c0. reflexivity.
Qed.

Lemma apply_loop_matrix d (m : matrix) (els : list string) s (c : usr num) :
  action d = rotation \/ action d = scaling ->
  lookup (drag_id d) (coords s) = Some c ->
  NoDup els ->
  exists s',
    apply_loop d (TObject m) els s = Some s'
    /\ coords s' = coords s
    /\ board_objects s' = board_objects s
    /\ (forall q,
          ~ In q els \/ isInArray (board_objects s) q = false ->
          points s' q = points s q)
    /\ (forall q,
          In q els -> isInArray (board_objects s) q = true ->
          usrCoords (points s' q)
          = if String.eqb q (drag_id d)
            then setCoordinates3 (Mat_matVecMult m c)
            else applyOnce m (usrCoords (points s q))).
Proof.
  intros Ha. revert s.
  induction els as [| el r IH]; intros s Hc Hnd.
  - exists s. simpl. repeat split; auto. intros q [].
  - inversion Hnd as [| x l Hnotin Hnd']; subst.
    simpl. rewrite apply_body_matrix with (c := c) by assumption. simpl.
    set (s1 := if isInArray (board_objects s) el then
                 if String.eqb el (drag_id d)
                 then set_usrCoords el
                        (setCoordinates3 (Mat_matVecMult m c)) s
                 else set_usrCoords el
                        (applyOnce m (usrCoords (points s el))) s
               else set_objects (delete el (objects s)) s).
    assert (Hco : coords s1 = coords s).
    { subst s1. destruct (isInArray (board_objects s) el); [| reflexivity].
      destruct (String.eqb el (drag_id d)); reflexivity. }
    assert (Hbo : board_objects s1 = board_objects s).
    { subst s1. destruct (isInArray (board_objects s) el); [| reflexivity].
      destruct (String.eqb el (drag_id d)); reflexivity. }
    assert (Hother : forall q, q <> el -> points s1 q = points s q).
    { intros q Hq. subst s1.
      destruct (isInArray (board_objects s) el); [| reflexivity].
      destruct (String.eqb el (drag_id d));
        now apply points_set_usrCoords_other. }
    destruct (IH s1) as (s' & Hrun & Hc' & Hb' & Hsame & Hmoved);
      [congruence | assumption |].
    exists s'. split; [exact Hrun |].
    split; [congruence |]. split; [congruence |]. split.
    + intros q Hq. rewrite Hsame.
      * destruct (string_dec q el) as [-> | Hne]; [| now apply Hother].
        destruct Hq as [Hq | Hq]; [exfalso; apply Hq; now left |].
        subst s1. now rewrite Hq.
      * rewrite Hbo. destruct Hq as [Hq | Hq]; [| now right].
        left. intros Hin. apply Hq. now right.
    + intros q [<- | Hin] Hb.
      * rewrite Hsame by (now left). subst s1. rewrite Hb.
        destruct (String.eqb el (drag_id d));
          now rewrite points_set_usrCoords_same.
      * rewrite Hmoved by (try assumption; congruence).
        rewrite Hother; [reflexivity |]. intros ->. contradiction.
Qed.
End Applier.

(** ** The update cycle *)

Section Cycle.
Context {num : Type} {N : Number num} {L : Library num}.
Implicit Types (s : State num) (p el q : string) (d : Drag).
Variable updateElements : Drag -> State num -> option (State num).

Lemma points_updateCoordsCache el s :
  points (_updateCoordsCache el s) = points s.
Proof.
  unfold _updateCoordsCache.
  now destruct (negb (String.eqb el EmptyString) && isInArray (objects s) el).
Qed.

Lemma points_refresh (l : list string) s :
  points (fold_left (fun st el => _updateCoordsCache el st) l s) = points s.
Proof.
  revert s. induction l as [| el r IH]; intros s; simpl; [reflexivity |].
  rewrite IH. apply points_updateCoordsCache.
Qed.

Lemma points_refresh_all s : points (refresh_all s) = points s.
Proof. apply points_refresh. Qed.

(** The guard at the entry of [update]. *)
Lemma update_not_dirty s :
  needsUpdate s = false -> update updateElements s = Some s.
Proof. intros H. unfold update. now rewrite H. Qed.

Lemma prepare_translation s d (c : usr num) :
  action d = translation ->
  lookup (drag_id d) (coords s) = Some c ->
  prepare s d
  = Some (Ready (TArray
       (fsub (usr_x (usrCoords (points s (drag_id d)))) (usr_x c))
       (fsub (usr_y (usrCoords (points s (drag_id d)))) (usr_y c)))).
Proof. intros Ha Hc. unfold prepare. now rewrite Ha, Hc. Qed.

(** C1, as the code has it: in a group whose members are all translation
    points, when one member alone has moved, that member has no rotation
    and no scaling role in force, and the group is marked, [update] puts
    every other member that is on the board at its cached coordinates
    plus the displacement of the moved member, leaves the moved member
    where it was put, and hands this state to the pass of the board,
    whatever that pass is; the coordinates [update] ends with are those
    the pass leaves, hence these very ones when the pass moves no
    point. *)
Theorem translation_moves_the_others s p :
  needsUpdate s = true ->
  find_changed s (objects s) = Some [p] ->
  Forall (fun el => isInArray (translationPoints s) el = true) (objects s) ->
  isInArray (rotationPoints s) p && Type_exists (rotationCenter s) = false ->
  isInArray (scalePoints s) p && Type_exists (scaleCenter s) = false ->
  exists handed c,
    lookup p (coords s) = Some c
    /\ points handed p = points s p
    /\ (forall el c_el,
          In el (objects s) -> el <> p ->
          isInArray (board_objects s) el = true ->
          lookup el (coords s) = Some c_el ->
          usrCoords (points handed el)
          = (fone,
             fadd (usr_x c_el)
               (fsub (usr_x (usrCoords (points s p))) (usr_x c)),
             fadd (usr_y c_el)
               (fsub (usr_y (usrCoords (points s p))) (usr_y c))))
    /\ update updateElements s
       = bind (updateElements (mkDrag translation p [p]) handed)
           (fun s3 => Some (refresh_all s3))
    /\ (forall s3,
          updateElements (mkDrag translation p [p]) handed = Some s3 ->
          exists s',
            update updateElements s = Some s' /\ points s' = points s3).
Proof.
  intros Hdirty Hch Htr Hrot Hsc.
  destruct (find_changed_filter _ _ Hch) as [Hf Hall].
  assert (Hp : In p (objects s)).
  { assert (Hin : In p (filter (moved s) (objects s)))
      by (rewrite <- Hf; now left).
    now apply filter_In in Hin. }
  destruct (Hall p Hp) as [c Hc].
  assert (Ht : isInArray (translationPoints s) p = true)
    by (rewrite Forall_forall in Htr; now apply Htr).
  set (d := mkDrag translation p [p]).
  assert (Hd : _update_find_drag_type s = Some d).
  { unfold _update_find_drag_type. rewrite Hch. simpl.
    now rewrite Hrot, Hsc, Ht. }
  set (dx := fsub (usr_x (usrCoords (points s p))) (usr_x c)).
  set (dy := fsub (usr_y (usrCoords (points s p))) (usr_y c)).
  destruct (@apply_loop_translation _ _ _ d dx dy (objects s) s eq_refl)
    as (s1 & Hrun & _ & _ & _ & Hsame & Hmoved).
  { intros el Hel. destruct (Hall el Hel) as [c' Hc']. congruence. }
  assert (Hu : update updateElements s
               = bind (updateElements d (set_needsUpdate false s1))
                   (fun s3 => Some (refresh_all s3))).
  { unfold update. rewrite Hdirty, Hd. simpl.
    rewrite prepare_translation with (c := c) by easy. simpl.
    unfold _update_apply_transformation. fold dx dy. rewrite Hrun.
    reflexivity. }
  exists (set_needsUpdate false s1), c.
  split; [exact Hc |]. split; [| split; [| split]].
  - simpl. apply Hsame. right. right. now left.
  - intros el c_el Hel Hne Hb Hcel. simpl.
    rewrite (Hmoved el c_el); try assumption; [reflexivity |].
    simpl. apply String.eqb_neq in Hne. now rewrite Hne.
  - exact Hu.
  - intros s3 Hs3. exists (refresh_all s3). split.
    + rewrite Hu. fold d. now rewrite Hs3.
    + apply points_refresh_all.
Qed.

(** C4, as the code has it: when the center of the rotation or scaling at
    hand is none of a point, an array, 'centroid' or a function, [update]
    returns with the whole state as it was: no coordinates and no cache
    entry change, nothing is applied in part, and the flag [needsUpdate]
    is not cleared. *)
Theorem unsupported_center_aborts s d :
  needsUpdate s = true ->
  _update_find_drag_type s = Some d ->
  (action d = rotation /\ unsupported (rotationCenter s) = true)
  \/ (action d = scaling /\ unsupported (scaleCenter s) = true) ->
  update updateElements s = Some s /\ needsUpdate s = true.
Proof.
  intros Hdirty Hd Hc. split; [| exact Hdirty].
  unfold update. rewrite Hdirty, Hd. simpl. unfold prepare.
  destruct Hc as [[-> Hu] | [-> Hu]].
  - destruct (rotationCenter s); try discriminate; reflexivity.
  - destruct (scaleCenter s); try discriminate; reflexivity.
Qed.

(** C5: under a scaling, when the cached position of the dragged point is
    closer than [Mat.eps] to the resolved scale center, [update] returns
    without an error and with the state as it was: no member is moved. *)
Theorem degenerate_scaling_is_noop s d (center : pair num) (c : usr num) :
  _update_find_drag_type s = Some d ->
  action d = scaling ->
  resolve_center s (scaleCenter s) = Some center ->
  lookup (drag_id d) (coords s) = Some c ->
  flt (Math_abs (Geometry_distance (slice1 c) center)) Mat_eps = true ->
  update updateElements s = Some s.
Proof.
  intros Hd Ha Hcenter Hc Hsmall.
  destruct (needsUpdate s) eqn:Hdirty; [| now apply update_not_dirty].
  unfold update. rewrite Hdirty, Hd. simpl. rewrite Ha.
  unfold prepare. rewrite Ha, Hcenter, Hc. simpl. now rewrite Hsmall.
Qed.

(** C8: in a cycle that applies a transformation, [board.updateElements]
    is handed a state whose flag [needsUpdate] is already cleared; on that
    state [update] returns at once, whatever the board would do; a pass
    of the board that calls [update] again therefore ends like a pass
    that does nothing. *)
Theorem flag_cleared_before_propagation s d (t : Transform) (s1 : State num) :
  needsUpdate s = true ->
  _update_find_drag_type s = Some d ->
  action d <> nothing ->
  prepare s d = Some (Ready t) ->
  _update_apply_transformation d t s = Some s1 ->
  needsUpdate (set_needsUpdate false s1) = false
  /\ update updateElements s
     = bind (updateElements d (set_needsUpdate false s1))
         (fun s3 => Some (refresh_all s3))
  /\ (forall board_pass,
        update board_pass (set_needsUpdate false s1)
        = Some (set_needsUpdate false s1))
  /\ update (fun _ x => update updateElements x) s
     = update (fun _ x => Some x) s.
Proof.
  intros Hdirty Hd Ha Hp Happ.
  assert (Hcycle : forall pass,
             update pass s
             = bind (pass d (set_needsUpdate false s1))
                 (fun s3 => Some (refresh_all s3))).
  { intros pass. unfold update. rewrite Hdirty, Hd. simpl.
    destruct (action d); [contradiction | | |];
      rewrite Hp; simpl; rewrite Happ; reflexivity. }
  split; [reflexivity |]. split; [apply Hcycle |]. split.
  - intros pass. reflexivity.
  - rewrite !Hcycle. reflexivity.
Qed.
End Cycle.

(** ** Several members moved; rotations and scalings *)

Section Application.
Context {num : Type} {N : Number num} {L : Library num}.
Implicit Types (s : State num) (p el q : string) (d : Drag).

(** C7: when the first loop of the classifier finds more than one changed
    member, the action is a translation and the drag source is the first
    changed member in the iteration order of the members; the
    displacement is that of the drag source; the application leaves
    every changed member where it was put and puts every other member
    that is on the board at its cached coordinates plus that
    displacement. *)
Theorem several_moves_translate s (c1 c2 : string) (rest : list string) :
  find_changed s (objects s) = Some (c1 :: c2 :: rest) ->
  exists (c : usr num) (s' : State num),
    _update_find_drag_type s
    = Some (mkDrag translation c1 (c1 :: c2 :: rest))
    /\ (exists pre post,
          objects s = pre ++ c1 :: post /\ moved s c1 = true
          /\ forall el, In el pre -> moved s el = false)
    /\ lookup c1 (coords s) = Some c
    /\ prepare s (mkDrag translation c1 (c1 :: c2 :: rest))
       = Some (Ready (TArray
            (fsub (usr_x (usrCoords (points s c1))) (usr_x c))
            (fsub (usr_y (usrCoords (points s c1))) (usr_y c))))
    /\ _update_apply_transformation
         (mkDrag translation c1 (c1 :: c2 :: rest))
         (TArray (fsub (usr_x (usrCoords (points s c1))) (usr_x c))
                 (fsub (usr_y (usrCoords (points s c1))) (usr_y c))) s
       = Some s'
    /\ (forall el, In el (c1 :: c2 :: rest) -> points s' el = points s el)
    /\ (forall el c_el,
          In el (objects s) -> ~ In el (c1 :: c2 :: rest) ->
          isInArray (board_objects s) el = true ->
          lookup el (coords s) = Some c_el ->
          usrCoords (points s' el)
          = (fone,
             fadd (usr_x c_el)
               (fsub (usr_x (usrCoords (points s c1))) (usr_x c)),
             fadd (usr_y c_el)
               (fsub (usr_y (usrCoords (points s c1))) (usr_y c)))).
Proof.
  intros Hch.
  destruct (find_changed_filter _ _ Hch) as [Hf Hall].
  destruct (filter_head _ _ (eq_sym Hf))
    as (pre & post & Hobj & Hm & Hpre & _).
  assert (Hin : In c1 (objects s))
    by (rewrite Hobj; apply in_or_app; right; now left).
  destruct (Hall c1 Hin) as [c Hc].
  set (d := mkDrag translation c1 (c1 :: c2 :: rest)).
  set (dx := fsub (usr_x (usrCoords (points s c1))) (usr_x c)).
  set (dy := fsub (usr_y (usrCoords (points s c1))) (usr_y c)).
  destruct (@apply_loop_translation _ _ _ d dx dy (objects s) s eq_refl)
    as (s' & Hrun & _ & _ & _ & Hsame & Hmoved).
  { intros el Hel. destruct (Hall el Hel) as [c' Hc']. congruence. }
  exists c, s'. repeat split.
  - unfold _update_find_drag_type. rewrite Hch. reflexivity.
  - exists pre, post. auto.
  - exact Hc.
  - now apply prepare_translation.
  - exact Hrun.
  - intros el Hel. apply Hsame. right. right. right.
    now apply isInArray_In.
  - intros el c_el Hel Hnot Hb Hcel.
    rewrite (Hmoved el c_el); try assumption; [reflexivity | |].
    + simpl. intros ->. apply Hnot. now left.
    + now apply isInArray_false.
Qed.

(** C6, as the code has it: under a rotation or a scaling the drag source
    gets the matrix applied to its cached coordinates, while every other
    member on the board is handed to [applyOnce] and gets what that makes
    of the matrix and the live coordinates of the member. *)
Theorem matrix_on_cache_and_on_live d (m : matrix) s (c : usr num) :
  action d = rotation \/ action d = scaling ->
  NoDup (objects s) ->
  lookup (drag_id d) (coords s) = Some c ->
  exists s',
    _update_apply_transformation d (TObject m) s = Some s'
    /\ (In (drag_id d) (objects s) ->
        isInArray (board_objects s) (drag_id d) = true ->
        usrCoords (points s' (drag_id d)) = Mat_matVecMult m c)
    /\ (forall el,
          In el (objects s) -> el <> drag_id d ->
          isInArray (board_objects s) el = true ->
          usrCoords (points s' el) = applyOnce m (usrCoords (points s el))).
Proof.
  intros Ha Hnd Hc.
  destruct (@apply_loop_matrix _ _ _ d m (objects s) s c Ha Hc Hnd)
    as (s' & Hrun & _ & _ & _ & Hmoved).
  exists s'. split; [exact Hrun |]. split.
  - intros Hin Hb. rewrite Hmoved by assumption.
    now rewrite String.eqb_refl.
  - intros el Hin Hne Hb. rewrite Hmoved by assumption.
    apply String.eqb_neq in Hne. now rewrite Hne.
Qed.
End Application.

(** ** The engine at work on concrete groups *)

Ltac evaluate :=
  first [ reflexivity | discriminate
        | vm_compute; first [ reflexivity | discriminate | tauto
                            | intuition discriminate ] ].

Lemma translation_moves_the_others_witness :
  needsUpdate Scenes.dragged = true
  /\ find_changed Scenes.dragged (objects Scenes.dragged)
     = Some ["A"%string]
  /\ JS.positions ["A"; "B"; "C"; "D"]%string
       (update JS.quiet Scenes.dragged)
     = Some [(1, 1, 3); (1, 3, 3); (1, 3, 5); (1, 1, 5)]%float.
Proof.
  assert (H1 : needsUpdate Scenes.dragged = true) by reflexivity.
  assert (H2 : find_changed Scenes.dragged (objects Scenes.dragged)
               = Some ["A"%string]) by evaluate.
  assert (H3 : Forall
                 (fun el =>
                    isInArray (translationPoints Scenes.dragged) el = true)
                 (objects Scenes.dragged))
    by (repeat constructor).
  assert (H4 : isInArray (rotationPoints Scenes.dragged) "A"
               && Type_exists (rotationCenter Scenes.dragged) = false)
    by reflexivity.
  assert (H5 : isInArray (scalePoints Scenes.dragged) "A"
               && Type_exists (scaleCenter Scenes.dragged) = false)
    by reflexivity.
  destruct (translation_moves_the_others JS.quiet Scenes.dragged
              H1 H2 H3 H4 H5)
    as (handed & c & Hc & Hp & Hothers & _ & Hend).
  destruct (Hend handed eq_refl) as (s' & Hu & Hpts).
  split; [exact H1 |]. split; [exact H2 |].
  rewrite Hu. simpl. rewrite Hpts, Hp.
  assert (Ec : c = (1, 0, 0)%float)
    by (vm_compute in Hc; now inversion Hc).
  subst c.
  rewrite (Hothers "B"%string (1, 2, 0)%float) by evaluate.
  rewrite (Hothers "C"%string (1, 2, 2)%float) by evaluate.
  rewrite (Hothers "D"%string (1, 0, 2)%float) by evaluate.
  vm_compute. reflexivity.
Defined.

(** C1, refuted as stated: being a translation point does not make a
    drag a translation. In the square, whose corners are all translation
    points, B is also a rotation point; dragged alone by (1, 0) it turns
    the group about the centroid: A does not go from (0,0) to (1,0), and
    B does not stay at (3,0). *)
Lemma rotation_point_does_not_translate :
  Forall (fun el => isInArray (translationPoints Scenes.turned) el = true)
    (objects Scenes.turned)
  /\ needsUpdate Scenes.turned = true
  /\ find_changed Scenes.turned (objects Scenes.turned)
     = Some ["B"%string]
  /\ lookup "A" (coords Scenes.turned) = Some (1, 0, 0)%float
  /\ lookup "B" (coords Scenes.turned) = Some (1, 2, 0)%float
  /\ usrCoords (points Scenes.turned "B"%string) = (1, 3, 0)%float
  /\ _update_find_drag_type Scenes.turned = Some Scenes.rotate_B
  /\ JS.positions ["A"%string] (update JS.quiet Scenes.turned)
     <> Some [(1, 1, 0)%float]
  /\ JS.positions ["B"%string] (update JS.quiet Scenes.turned)
     <> Some [(1, 3, 0)%float].
Proof.
  repeat split; try (vm_compute; reflexivity); try (repeat constructor).
  - apply (differ JS.positions_eqb); vm_compute; reflexivity.
  - apply (differ JS.positions_eqb); vm_compute; reflexivity.
Qed.

Lemma unsupported_center_aborts_witness :
  needsUpdate Scenes.bad_center = true
  /\ _update_find_drag_type Scenes.bad_center = Some Scenes.rotate_B
  /\ unsupported (rotationCenter Scenes.bad_center) = true
  /\ update JS.quiet Scenes.bad_center = Some Scenes.bad_center.
Proof.
  assert (H1 : needsUpdate Scenes.bad_center = true) by reflexivity.
  assert (H2 : _update_find_drag_type Scenes.bad_center
               = Some Scenes.rotate_B) by evaluate.
  assert (H3 : unsupported (rotationCenter Scenes.bad_center) = true)
    by reflexivity.
  exact (conj H1 (conj H2 (conj H3
           (proj1 (unsupported_center_aborts JS.quiet Scenes.bad_center
                     H1 H2 (or_introl (conj eq_refl H3))))))).
Defined.

(** C4, refuted as stated: with a rotation point dragged and a number as
    the rotation center, [update] returns with the flag [needsUpdate]
    still set. *)
Lemma abort_leaves_the_flag_set :
  _update_find_drag_type Scenes.bad_center = Some Scenes.rotate_B
  /\ rotationCenter Scenes.bad_center = COther
  /\ update JS.quiet Scenes.bad_center = Some Scenes.bad_center
  /\ needsUpdate Scenes.bad_center = true
  /\ ~ (exists s', update JS.quiet Scenes.bad_center = Some s'
                   /\ needsUpdate s' = false).
Proof.
  assert (Hu : update JS.quiet Scenes.bad_center = Some Scenes.bad_center)
    by evaluate.
  split; [evaluate |]. split; [reflexivity |]. split; [exact Hu |].
  split; [reflexivity |].
  intros (s' & Hs & Hf). rewrite Hu in Hs. inversion Hs; subst s'.
  discriminate Hf.
Qed.

Lemma degenerate_scaling_is_noop_witness :
  _update_find_drag_type Scenes.degenerate = Some Scenes.scale_B
  /\ resolve_center Scenes.degenerate (scaleCenter Scenes.degenerate)
     = Some (2, 0)%float
  /\ lookup "B" (coords Scenes.degenerate) = Some (1, 2, 0)%float
  /\ update JS.quiet Scenes.degenerate = Some Scenes.degenerate.
Proof.
  assert (H2 : _update_find_drag_type Scenes.degenerate
               = Some Scenes.scale_B) by evaluate.
  assert (H3 : action Scenes.scale_B = scaling) by reflexivity.
  assert (H4 : resolve_center Scenes.degenerate
                 (scaleCenter Scenes.degenerate) = Some (2, 0)%float)
    by reflexivity.
  assert (H5 : lookup (drag_id Scenes.scale_B) (coords Scenes.degenerate)
               = Some (1, 2, 0)%float) by evaluate.
  assert (H6 : flt (Math_abs (Geometry_distance
                                (slice1 (1, 2, 0)%float) (2, 0)%float))
                 Mat_eps = true) by evaluate.
  exact (conj H2 (conj H4 (conj H5
           (degenerate_scaling_is_noop JS.quiet Scenes.degenerate
              H2 H3 H4 H5 H6)))).
Defined.

Lemma flag_cleared_before_propagation_witness :
  needsUpdate Scenes.dragged = true
  /\ _update_find_drag_type Scenes.dragged = Some Scenes.drag_A
  /\ prepare Scenes.dragged Scenes.drag_A = Some (Ready (TArray 1 3)%float)
  /\ exists s1,
       _update_apply_transformation Scenes.drag_A (TArray 1 3)%float
         Scenes.dragged = Some s1
       /\ update JS.quiet Scenes.dragged
          = Some (refresh_all (set_needsUpdate false s1))
       /\ update (fun _ x => update JS.quiet x) Scenes.dragged
          = update (fun _ x => Some x) Scenes.dragged.
Proof.
  assert (H1 : needsUpdate Scenes.dragged = true) by reflexivity.
  assert (H2 : _update_find_drag_type Scenes.dragged = Some Scenes.drag_A)
    by evaluate.
  assert (H3 : action Scenes.drag_A <> nothing) by discriminate.
  assert (H4 : prepare Scenes.dragged Scenes.drag_A
               = Some (Ready (TArray 1 3)%float)) by evaluate.
  destruct (_update_apply_transformation Scenes.drag_A (TArray 1 3)%float
              Scenes.dragged) as [s1 |] eqn:H5;
    [| vm_compute in H5; discriminate H5].
  destruct (@flag_cleared_before_propagation float JS.number JS.library
              JS.quiet Scenes.dragged Scenes.drag_A (TArray 1 3)%float s1
              H1 H2 H3 H4 H5)
    as (_ & Hcycle & _ & Hagain).
  split; [exact H1 |]. split; [exact H2 |]. split; [exact H4 |].
  exists s1. split; [reflexivity |]. split; [exact Hcycle | exact Hagain].
Defined.

Lemma several_moves_translate_witness :
  find_changed Scenes.two_dragged (objects Scenes.two_dragged)
  = Some ["A"; "C"]%string
  /\ _update_find_drag_type Scenes.two_dragged = Some Scenes.drag_AC
  /\ exists s',
       _update_apply_transformation Scenes.drag_AC (TArray 1 3)%float
         Scenes.two_dragged = Some s'
       /\ usrCoords (points s' "A"%string) = (1, 1, 3)%float
       /\ usrCoords (points s' "C"%string) = (1, 5, 5)%float
       /\ usrCoords (points s' "B"%string) = (1, 3, 3)%float
       /\ usrCoords (points s' "D"%string) = (1, 1, 5)%float.
Proof.
  assert (H : find_changed Scenes.two_dragged (objects Scenes.two_dragged)
              = Some ["A"; "C"]%string) by evaluate.
  destruct (several_moves_translate Scenes.two_dragged H)
    as (c & s' & Hd & _ & Hc & _ & Hrun & Hkept & Hshift).
  assert (Ec : c = (1, 0, 0)%float)
    by (vm_compute in Hc; now inversion Hc).
  subst c.
  split; [exact H |]. split; [exact Hd |].
  exists s'. split; [exact Hrun |].
  rewrite (Hkept "A"%string) by evaluate.
  rewrite (Hkept "C"%string) by evaluate.
  rewrite (Hshift "B"%string (1, 2, 0)%float) by evaluate.
  rewrite (Hshift "D"%string (1, 0, 2)%float) by evaluate.
  repeat split; vm_compute; reflexivity.
Defined.

Lemma matrix_on_cache_and_on_live_witness :
  NoDup (objects Scenes.drifted)
  /\ lookup "A" (coords Scenes.drifted) = Some (1, 1, 0)%float
  /\ exists s',
       _update_apply_transformation Scenes.scale_A
         (TObject (Scenes.doubling : @matrix float JS.library))
         Scenes.drifted = Some s'
       /\ usrCoords (points s' "A"%string) = (1, 2, 0)%float
       /\ usrCoords (points s' "B"%string)
          = JS.apply_once Scenes.doubling
              (usrCoords (points Scenes.drifted "B"%string)).
Proof.
  assert (H1 : action Scenes.scale_A = rotation
               \/ action Scenes.scale_A = scaling) by (now right).
  assert (H2 : NoDup (objects Scenes.drifted))
    by (repeat constructor; simpl; intuition discriminate).
  assert (H3 : lookup (drag_id Scenes.scale_A) (coords Scenes.drifted)
               = Some (1, 1, 0)%float) by evaluate.
  destruct (@matrix_on_cache_and_on_live float JS.number JS.library
              Scenes.scale_A Scenes.doubling Scenes.drifted
              (1, 1, 0)%float H1 H2 H3)
    as (s' & Hrun & Hsource & Hothers).
  split; [exact H2 |]. split; [exact H3 |].
  exists s'. split; [exact Hrun |]. split.
  - change "A"%string with (drag_id Scenes.scale_A).
    rewrite Hsource by evaluate. vm_compute. reflexivity.
  - apply Hothers; evaluate.
Defined.

(** C6, refuted as stated: a member other than the drag source is
    transformed from its live coordinates. B is cached at (0,1) and has
    drifted to (0, 1 + 2^-21), which the classifier counts as unchanged;
    when A is dragged and the group is scaled by 2 about the origin, B
    lands on twice its live coordinates, not on twice its cached ones.
    No [applyOnce] could do otherwise: it sees the matrix and the point,
    and two groups with the same points and different caches would need
    different results from it. *)
Lemma others_are_transformed_from_live :
  _update_find_drag_type Scenes.drifted = Some Scenes.scale_A
  /\ prepare Scenes.drifted Scenes.scale_A
     = Some (Ready (TObject (Scenes.doubling : @matrix float JS.library)))
  /\ lookup "B" (coords Scenes.drifted) = Some (1, 0, 1)%float
  /\ JS.matVecMult Scenes.doubling (1, 0, 1)%float = (1, 0, 2)%float
  /\ JS.positions ["B"%string] (update JS.quiet Scenes.drifted)
     = Some [(1, 0, 0x1.000008p+1)%float]
  /\ (1, 0, 0x1.000008p+1)%float <> (1, 0, 2)%float
  /\ ~ Scenes.B_from_cache JS.apply_once Scenes.drifted
  /\ ~ (exists ao, Scenes.B_from_cache ao Scenes.drifted
                   /\ Scenes.B_from_cache ao Scenes.settled).
Proof.
  assert (Hne : (1, 0, 0x1.000008p+1)%float <> (1, 0, 2)%float)
    by (apply (differ JS.usr_eqb); vm_compute; reflexivity).
  assert (Hboth : forall ao,
             Scenes.B_from_cache ao Scenes.drifted ->
             ao Scenes.doubling (1, 0, 0x1.000008p+0)%float
             = (1, 0, 2)%float).
  { intros ao (s' & m & c & Hp & Hu & Hc & Hb).
    vm_compute in Hp. inversion Hp; subst m.
    vm_compute in Hc. inversion Hc; subst c.
    vm_compute in Hu. inversion Hu; subst s'.
    vm_compute in Hb. exact Hb. }
  repeat split; try (vm_compute; reflexivity); try exact Hne.
  - intros H. apply Hboth in H. vm_compute in H. now apply Hne.
  - intros (ao & H1 & H2). apply Hboth in H1.
    destruct H2 as (s' & m & c & Hp & Hu & Hc & Hb).
    vm_compute in Hp. inversion Hp; subst m.
    vm_compute in Hc. inversion Hc; subst c.
    vm_compute in Hu. inversion Hu; subst s'.
    vm_compute in Hb. vm_compute in H1. apply Hne.
    rewrite <- Hb. exact H1.
Qed.

(** * Further properties of the group *)

(** ** Updates that change nothing, and the cache after a cycle *)

Section Quiet.
Context {num : Type} {N : Number num} {L : Library num}.
Implicit Types (s : State num) (p el q : string) (d : Drag).
Variable updateElements : Drag -> State num -> option (State num).

Lemma updateCoordsCache_empty s : _updateCoordsCache EmptyString s = s.
Proof. reflexivity. Qed.

(** X1: when no member is further than [Mat.eps] from its cached
    coordinates, [update] returns the state as it is: no point moves, the
    cache is not rewritten, the board is not asked to update, and the
    flag [needsUpdate] keeps its value. *)
Theorem update_without_change s :
  find_changed s (objects s) = Some [] ->
  update updateElements s = Some s.
Proof.
  intros H. unfold update.
  destruct (needsUpdate s); [| reflexivity]. simpl.
  unfold _update_find_drag_type. rewrite H. reflexivity.
Qed.

(** X2: when the one member that moved has no role in force (it triggers
    no rotation, no scaling, and is no translation point), [update] moves
    nothing and asks nothing of the board; it only rewrites the cache
    entry of that member with its live coordinates, so that the next
    comparison starts from there. *)
Theorem move_without_role s p :
  needsUpdate s = true ->
  p <> EmptyString ->
  find_changed s (objects s) = Some [p] ->
  isInArray (rotationPoints s) p && Type_exists (rotationCenter s) = false ->
  isInArray (scalePoints s) p && Type_exists (scaleCenter s) = false ->
  isInArray (translationPoints s) p = false ->
  exists s',
    update updateElements s = Some s'
    /\ points s' = points s
    /\ objects s' = objects s
    /\ needsUpdate s' = true
    /\ lookup p (coords s') = Some (usrCoords (points s p))
    /\ forall q, q <> p -> lookup q (coords s') = lookup q (coords s).
Proof.
  intros Hdirty Hp Hch Hrot Hsc Htr.
  destruct (find_changed_filter _ _ Hch) as [Hf _].
  assert (Hin : In p (objects s)).
  { assert (H : In p (filter (moved s) (objects s)))
      by (rewrite <- Hf; now left).
    now apply filter_In in H. }
  exists (set_coords (assign p (usrCoords (points s p)) (coords s)) s).
  split; [| repeat split; simpl; auto].
  - unfold update. rewrite Hdirty. simpl.
    unfold _update_find_drag_type. rewrite Hch. simpl.
    rewrite Hrot, Hsc, Htr. simpl. unfold _updateCoordsCache.
    apply String.eqb_neq in Hp. rewrite Hp.
    now rewrite (proj2 (isInArray_In _ _) Hin).
  - apply lookup_assign_same.
  - intros q Hq. now apply lookup_assign_other.
Qed.

Lemma objects_updateCoordsCache el s :
  objects (_updateCoordsCache el s) = objects s.
Proof.
  unfold _updateCoordsCache.
  now destruct (negb (String.eqb el EmptyString)
                && isInArray (objects s) el).
Qed.

Lemma refresh_fold (l : list string) s :
  (forall el, In el l -> In el (objects s)) ->
  let s' := fold_left (fun st el => _updateCoordsCache el st) l s in
  objects s' = objects s
  /\ points s' = points s
  /\ (forall el, In el l -> el <> EmptyString ->
        lookup el (coords s') = Some (usrCoords (points s el)))
  /\ (forall q, ~ In q l -> lookup q (coords s') = lookup q (coords s)).
Proof.
  revert s. induction l as [| a r IH]; intros s Hsub; simpl.
  - repeat split; auto. intros el [].
  - set (s1 := _updateCoordsCache a s).
    assert (Ho : objects s1 = objects s)
      by apply objects_updateCoordsCache.
    assert (Hp : points s1 = points s)
      by apply (points_updateCoordsCache).
    destruct (IH s1) as (Ho' & Hp' & Hin' & Hout').
    { intros el Hel. rewrite Ho. apply Hsub. now right. }
    split; [congruence |]. split; [congruence |]. split.
    + intros el Hel Hne.
      destruct (in_dec string_dec el r) as [Hr | Hr].
      * rewrite Hin' by assumption. now rewrite Hp.
      * destruct Hel as [<- | Hel]; [| contradiction].
        rewrite Hout' by assumption. subst s1. unfold _updateCoordsCache.
        apply String.eqb_neq in Hne. rewrite Hne.
        rewrite (proj2 (isInArray_In _ _) (Hsub a (or_introl eq_refl))).
        simpl. apply lookup_assign_same.
    + intros q Hq.
      rewrite Hout' by (intros H; apply Hq; now right).
      subst s1. unfold _updateCoordsCache.
      destruct (negb (String.eqb a EmptyString) && isInArray (objects s) a);
        [| reflexivity].
      simpl. apply lookup_assign_other. intros ->. apply Hq. now left.
Qed.

(** X3: a cycle that applies a transformation ends with the cache of every
    member (as the members are after the pass of the board) equal to
    the live coordinates of that member; entries of points that are no
    members are left as the board left them. *)
Theorem cycle_renews_the_cache s d (t : Transform) (s1 s3 : State num) :
  needsUpdate s = true ->
  _update_find_drag_type s = Some d ->
  action d <> nothing ->
  prepare s d = Some (Ready t) ->
  _update_apply_transformation d t s = Some s1 ->
  updateElements d (set_needsUpdate false s1) = Some s3 ->
  exists s',
    update updateElements s = Some s'
    /\ objects s' = objects s3
    /\ points s' = points s3
    /\ (forall el, In el (objects s') -> el <> EmptyString ->
          lookup el (coords s') = Some (usrCoords (points s' el)))
    /\ (forall q, ~ In q (objects s') ->
          lookup q (coords s') = lookup q (coords s3)).
Proof.
  intros Hdirty Hd Ha Hp Happ Hboard.
  exists (refresh_all s3).
  destruct (@refresh_fold (objects s3) s3 (fun el H => H))
    as (Ho & Hpt & Hin & Hout).
  fold (refresh_all s3) in Ho, Hpt, Hin, Hout.
  split; [| split; [exact Ho | split; [exact Hpt | split]]].
  - unfold update. rewrite Hdirty, Hd. simpl.
    destruct (action d); [contradiction | | |];
      rewrite Hp; simpl; rewrite Happ; simpl; now rewrite Hboard.
  - intros el Hel Hne. rewrite Ho in Hel. rewrite Hpt. now apply Hin.
  - intros q Hq. rewrite Ho in Hq. now apply Hout.
Qed.
End Quiet.

(** ** Members that have left the board *)

Section Stale.
Context {num : Type} {N : Number num} {L : Library num}.
Implicit Types (s : State num) (p el q : string) (d : Drag).

Lemma apply_body_effect d (t : Transform) el s (s1 : State num) :
  apply_body d t el s = Some s1 ->
  if isInArray (board_objects s) el
  then s1 = s \/ exists u, s1 = set_usrCoords el u s
  else s1 = set_objects (delete el (objects s)) s.
Proof.
  unfold apply_body.
  destruct (isInArray (board_objects s) el); [| now inversion 1].
  destruct (negb (String.eqb el (drag_id d))), (action d), t;
    simpl; try discriminate;
    try (destruct (negb (isInArray (changed d) el)); simpl);
    try (destruct (lookup el (coords s)); simpl);
    try discriminate; inversion 1; eauto.
Qed.

Lemma filter_twice (A : Type) (f g : A -> bool) (l : list A) :
  filter f (filter g l) = filter (fun x => g x && f x) l.
Proof.
  induction l as [| a r IH]; simpl; [reflexivity |].
  destruct (g a); simpl; [| assumption].
  destruct (f a); now rewrite IH.
Qed.

Lemma apply_loop_members d (t : Transform) (els : list string) s
  (s' : State num) :
  apply_loop d t els s = Some s' ->
  objects s'
  = filter (fun k => isInArray (board_objects s) k || negb (isInArray els k))
      (objects s)
  /\ board_objects s' = board_objects s
  /\ coords s' = coords s
  /\ forall q, isInArray (board_objects s) q = false ->
               points s' q = points s q.
Proof.
  revert s. induction els as [| el r IH]; intros s H; simpl in H.
  - inversion H; subst. repeat split; auto.
    symmetry. apply filter_all. intros x _. apply orb_true_r.
  - destruct (apply_body d t el s) as [s1 |] eqn:Hb; [| discriminate].
    simpl in H. apply apply_body_effect in Hb.
    destruct (IH _ H) as (Ho & Hbo & Hco & Hpt). clear IH H.
    destruct (isInArray (board_objects s) el) eqn:Hon.
    + assert (Hs1 : objects s1 = objects s /\ board_objects s1 = board_objects s
                    /\ coords s1 = coords s
                    /\ forall q, q <> el -> points s1 q = points s q).
      { destruct Hb as [-> | [u ->]]; repeat split; auto.
        intros q Hq. now apply points_set_usrCoords_other. }
      destruct Hs1 as (Ho1 & Hb1 & Hc1 & Hp1).
      rewrite Ho, Hbo, Hco, Ho1, Hb1, Hc1. repeat split; auto.
      * apply filter_ext_in. intros k _. simpl.
        destruct (String.eqb k el) eqn:E; [| reflexivity].
        apply String.eqb_eq in E. subst k. rewrite Hon. reflexivity.
      * intros q Hq. rewrite Hpt by (now rewrite Hb1).
        apply Hp1. intros ->. congruence.
    + subst s1. simpl in *. rewrite Ho, Hbo, Hco. repeat split; auto.
      unfold delete. rewrite filter_twice. apply filter_ext_in.
      intros k _. simpl.
      destruct (String.eqb k el) eqn:E; simpl; [| reflexivity].
      apply String.eqb_eq in E. subst k. now rewrite Hon.
Qed.

(** X4: whatever the action, applying the transformation drops from the
    members exactly those that are no longer objects of the board, keeps
    the others in their order, and never writes the coordinates of a
    point that has left the board; the cache keeps all its entries. *)
Theorem stale_members_are_dropped d (t : Transform) s (s' : State num) :
  _update_apply_transformation d t s = Some s' ->
  objects s' = filter (isInArray (board_objects s)) (objects s)
  /\ coords s' = coords s
  /\ forall q, isInArray (board_objects s) q = false ->
               points s' q = points s q.
Proof.
  intros H. destruct (apply_loop_members _ _ _ _ H) as (Ho & _ & Hc & Hp).
  repeat split; auto. rewrite Ho. apply filter_ext_in. intros k Hk.
  rewrite (proj2 (isInArray_In _ _) Hk). simpl. apply orb_false_r.
Qed.
End Stale.

(** ** Configured groups and the errors [update] cannot run into *)

Section Ready.
Context {num : Type} {N : Number num} {L : Library num}.
Implicit Types (s : State num) (p el q : string) (d : Drag).

Lemma setActionPoints_fold (k : Kind) (l acc : list string) s :
  fold_left (fun st o => _addActionPoint k o st) l (set_actionPoints k acc s)
  = set_actionPoints k (acc ++ l) s.
Proof.
  revert acc. induction l as [| o r IH]; intros acc; simpl.
  - now rewrite app_nil_r.
  - replace (_addActionPoint k o (set_actionPoints k acc s))
      with (set_actionPoints k (acc ++ [o]) s)
      by (destruct k; reflexivity).
    rewrite IH. now rewrite <- app_assoc.
Qed.

Lemma setActionPoints_replaces (k : Kind) (l : list string) s :
  _setActionPoints k l s = set_actionPoints k l s.
Proof. unfold _setActionPoints. now rewrite setActionPoints_fold. Qed.

Lemma directions_fold (l : list string) (dir : string) s :
  let s' :=
    fold_left
      (fun st o =>
         set_scaleDirections (assign o dir (scaleDirections st)) st) l s in
  objects s' = objects s /\ coords s' = coords s
  /\ scalePoints s' = scalePoints s
  /\ rotationPoints s' = rotationPoints s
  /\ translationPoints s' = translationPoints s
  /\ (forall p, In p l -> lookup p (scaleDirections s') = Some dir)
  /\ (forall q, ~ In q l ->
        lookup q (scaleDirections s') = lookup q (scaleDirections s)).
Proof.
  revert s. induction l as [| o r IH]; intros s; simpl.
  - repeat split; auto. intros p [].
  - destruct (IH (set_scaleDirections (assign o dir (scaleDirections s)) s))
      as (H1 & H2 & H3 & H4 & H5 & Hin & Hout).
    simpl in *. repeat split; auto.
    + intros p Hp. destruct (in_dec string_dec p r) as [Hr | Hr];
        [now apply Hin |].
      destruct Hp as [<- | Hp]; [| contradiction].
      rewrite Hout by assumption. apply lookup_assign_same.
    + intros q Hq. rewrite Hout by (intros H; apply Hq; now right).
      apply lookup_assign_other. intros ->. apply Hq. now left.
Qed.

Lemma In_remove_first (x y : string) (l : list string) :
  In y (remove_first x l) -> In y l.
Proof.
  induction l as [| a r IH]; simpl; [auto |].
  destruct (String.eqb a x); simpl; [now right |].
  intros [H | H]; [now left | right; now apply IH].
Qed.

Lemma ready_new_Group id board (h : Heap num) : ready (new_Group id board h).
Proof. repeat split; simpl; try constructor; intros x []. Qed.

Lemma scale_addPoint p s :
  scalePoints (addPoint p s) = scalePoints s
  /\ scaleDirections (addPoint p s) = scaleDirections s
  /\ rotationPoints (addPoint p s) = rotationPoints s
  /\ rotationCenter (addPoint p s) = rotationCenter s
  /\ scaleCenter (addPoint p s) = scaleCenter s.
Proof.
  unfold addPoint, _updateCoordsCache. simpl.
  rewrite isInArray_add_key.
  destruct (String.eqb p EmptyString); repeat split.
Qed.

Lemma ready_addPoint p s :
  p <> EmptyString -> ready s -> ready (addPoint p s).
Proof.
  intros Hp (Hn & Hc & Hd). unfold ready.
  destruct (scale_addPoint p s) as (-> & -> & _).
  rewrite objects_addPoint, coords_addPoint.
  apply String.eqb_neq in Hp. rewrite Hp. repeat split.
  - now apply NoDup_add_key.
  - intros el Hel. apply In_add_key in Hel.
    destruct (string_dec el p) as [-> | Hne].
    + rewrite lookup_assign_same. discriminate.
    + rewrite lookup_assign_other by assumption.
      destruct Hel as [Hel | Hel]; [now apply Hc | contradiction].
  - exact Hd.
Qed.

Lemma ready_addPoints (l : list string) s :
  Forall (fun p => p <> EmptyString) l -> ready s -> ready (addPoints l s).
Proof.
  revert s. induction l as [| p r IH]; intros s Hl Hs; simpl; [assumption |].
  inversion Hl; subst. apply IH; [assumption |]. now apply ready_addPoint.
Qed.

Lemma ready_call (c : Call num) s :
  Forall (fun p => p <> EmptyString) (joining c) ->
  ready s -> ready (call s c).
Proof.
  intros Hj Hs. destruct c; simpl in *.
  - inversion Hj; subst. now apply ready_addPoint.
  - now apply ready_addPoints.
  - destruct Hs as (Hn & Hc & Hd). repeat split; simpl; auto.
    + now apply NoDup_delete.
    + intros el Hel. apply In_delete in Hel. now apply Hc.
  - exact Hs.
  - exact Hs.
  - unfold setRotationPoints. rewrite setActionPoints_replaces. exact Hs.
  - exact Hs.
  - unfold removeRotationPoint, _removeActionPoint. simpl.
    destruct (isInArray (rotationPoints s) p); exact Hs.
  - unfold setTranslationPoints. rewrite setActionPoints_replaces. exact Hs.
  - exact Hs.
  - unfold removeTranslationPoint, _removeActionPoint. simpl.
    destruct (isInArray (translationPoints s) p); exact Hs.
  - unfold setScalePoints. rewrite setActionPoints_replaces.
    destruct (directions_fold l (direction_or_xy direction) s)
      as (H1 & H2 & _ & _ & _ & Hin & _).
    destruct Hs as (Hn & Hc & Hd). repeat split; simpl.
    + now rewrite H1.
    + intros el Hel. rewrite H1 in Hel. rewrite H2. now apply Hc.
    + intros q Hq. rewrite Hin by assumption. discriminate.
  - destruct Hs as (Hn & Hc & Hd). repeat split; simpl; auto.
    intros q Hq. apply in_app_or in Hq.
    destruct (string_dec q p) as [-> | Hne].
    + rewrite lookup_assign_same. discriminate.
    + rewrite lookup_assign_other by assumption.
      destruct Hq as [Hq | [Hq | []]]; [now apply Hd | congruence].
  - unfold removeScalePoint, _removeActionPoint. simpl.
    destruct (isInArray (scalePoints s) p); [| exact Hs].
    destruct Hs as (Hn & Hc & Hd). repeat split; simpl; auto.
    intros q Hq. apply Hd. now apply In_remove_first in Hq.
Qed.

Lemma ready_calls (cs : list (Call num)) s :
  Forall (fun p => p <> EmptyString) (flat_map joining cs) ->
  ready s -> ready (calls cs s).
Proof.
  unfold calls. revert s.
  induction cs as [| c r IH]; intros s Hj Hs; simpl in *.
  - assumption.
  - apply Forall_app in Hj. destruct Hj as [Hc Hr].
    apply IH; [assumption |]. now apply ready_call.
Qed.

(** X5: a group made by [new JXG.Group] and configured through its
    interface -- points added and removed, centers set, role points set,
    added and removed, in any order and number, on points with a
    non-empty id -- has distinct members, a cache entry for every member
    and a scale direction for every scale point. *)
Theorem configured_group_is_ready (cs : list (Call num)) (id : string)
  (board : list string) (h : Heap num) :
  Forall (fun p => p <> EmptyString) (flat_map joining cs) ->
  ready (calls cs (new_Group id board h)).
Proof.
  intros H. apply ready_calls; [assumption | apply ready_new_Group].
Qed.

Lemma find_drag_type_total s :
  (forall el, In el (objects s) -> lookup el (coords s) <> None) ->
  exists d, _update_find_drag_type s = Some d.
Proof.
  intros Hc. unfold _update_find_drag_type.
  rewrite (find_changed_total _ _ Hc). simpl.
  destruct (filter (moved s) (objects s)); eexists; reflexivity.
Qed.

(** Whoever is found to drag the group is a member with a cache entry; a
    scaling is only found for a scale point. *)
Lemma find_drag_type_source s d :
  _update_find_drag_type s = Some d ->
  action d <> nothing ->
  In (drag_id d) (objects s)
  /\ (exists c, lookup (drag_id d) (coords s) = Some c)
  /\ (action d = scaling -> In (drag_id d) (scalePoints s)).
Proof.
  unfold _update_find_drag_type.
  destruct (find_changed s (objects s)) as [ch |] eqn:Hch;
    simpl; [| discriminate].
  destruct (find_changed_filter _ _ Hch) as [Hf Hall].
  destruct ch as [| p rest]; intros H Ha; inversion H; subst d; clear H.
  - now contradiction Ha.
  - assert (Hin : In p (objects s)).
    { assert (H : In p (filter (moved s) (objects s)))
        by (rewrite <- Hf; now left).
      now apply filter_In in H. }
    cbn [drag_id action] in *. split; [exact Hin |].
    split; [now apply Hall |]. intros E.
    destruct (1 <? S (length rest)); [discriminate E |].
    destruct (isInArray (rotationPoints s) p
              && Type_exists (rotationCenter s)); [discriminate E |].
    destruct (isInArray (scalePoints s) p) eqn:Hsp; simpl in E.
    + now apply isInArray_In.
    + destruct (isInArray (translationPoints s) p); discriminate E.
Qed.

Lemma prepare_total s d :
  (exists c, lookup (drag_id d) (coords s) = Some c) ->
  (action d = scaling ->
   lookup (drag_id d) (scaleDirections s) <> None) ->
  exists r,
    prepare s d = Some r
    /\ forall t, r = Ready t ->
         match action d with
         | translation => exists t0 t1, t = TArray t0 t1
         | rotation | scaling => exists m, t = TObject m
         | nothing => False
         end.
Proof.
  intros [c Hc] Hdir. unfold prepare. rewrite Hc.
  destruct (action d); simpl.
  - eexists. split; [reflexivity |]. discriminate.
  - eexists. split; [reflexivity |]. intros t H. inversion H. eauto.
  - destruct (resolve_center s (rotationCenter s)); simpl;
      eexists; (split; [reflexivity |]); intros t H;
      inversion H; eauto.
  - destruct (resolve_center s (scaleCenter s)); simpl.
    + destruct (flt _ Mat_eps).
      * eexists. split; [reflexivity |]. discriminate.
      * destruct (lookup (drag_id d) (scaleDirections s)) eqn:E;
          [| now contradiction (Hdir eq_refl)].
        simpl. eexists. split; [reflexivity |].
        intros t H. inversion H. eauto.
    + eexists. split; [reflexivity |]. discriminate.
Qed.

(** X6: on a group that is ready in this sense [update] raises no
    [TypeError], wherever the points have been moved and whether the
    flag is set or not, as long as the pass of the board raises none. *)
Theorem ready_group_updates_without_error
  (updateElements : Drag -> State num -> option (State num)) s :
  ready s ->
  (forall d x, updateElements d x <> None) ->
  exists s', update updateElements s = Some s'.
Proof.
  intros (Hn & Hc & Hd) Hboard. unfold update.
  destruct (needsUpdate s); simpl; [| eauto].
  destruct (find_drag_type_total s Hc) as [d Hdrag]. rewrite Hdrag. simpl.
  destruct (action d) eqn:Ha; [eauto | | |].
  all: assert (Hact : action d <> nothing) by (rewrite Ha; discriminate);
    destruct (find_drag_type_source _ Hdrag Hact) as (Hin & [c Hcd] & Hsc);
    destruct (@prepare_total s d (ex_intro _ c Hcd)) as (r & Hr & Hshape);
    [ intros Hs; apply Hd; now apply Hsc | ];
    rewrite Hr; simpl; destruct r as [| t]; [eauto |];
    specialize (Hshape t eq_refl); rewrite Ha in Hshape.
  - destruct Hshape as (t0 & t1 & ->).
    destruct (@apply_loop_translation _ _ _ d t0 t1 (objects s) s Ha Hc)
      as (s1 & Hrun & _).
    unfold _update_apply_transformation. rewrite Hrun. simpl.
    destruct (updateElements d (set_needsUpdate false s1)) eqn:E;
      [simpl; eauto | now contradiction (Hboard _ _ E)].
  - destruct Hshape as (m & ->).
    destruct (@apply_loop_matrix _ _ _ d m (objects s) s c
                (or_introl Ha) Hcd Hn) as (s1 & Hrun & _).
    unfold _update_apply_transformation. rewrite Hrun. simpl.
    destruct (updateElements d (set_needsUpdate false s1)) eqn:E;
      [simpl; eauto | now contradiction (Hboard _ _ E)].
  - destruct Hshape as (m & ->).
    destruct (@apply_loop_matrix _ _ _ d m (objects s) s c
                (or_intror Ha) Hcd Hn) as (s1 & Hrun & _).
    unfold _update_apply_transformation. rewrite Hrun. simpl.
    destruct (updateElements d (set_needsUpdate false s1)) eqn:E;
      [simpl; eauto | now contradiction (Hboard _ _ E)].
Qed.
End Ready.

(** ** Role points *)

Section Roles.
Context {num : Type} {N : Number num} {L : Library num}.
Implicit Types (s : State num) (p el q : string) (k : Kind).

Lemma remove_first_absent (x : string) (l : list string) :
  ~ In x l -> remove_first x l = l.
Proof.
  induction l as [| a r IH]; simpl; intros H; [reflexivity |].
  destruct (String.eqb a x) eqn:E.
  - apply String.eqb_eq in E. subst. exfalso. apply H. now left.
  - f_equal. apply IH. intros Hx. apply H. now right.
Qed.

Lemma remove_first_last (x : string) (l : list string) :
  ~ In x l -> remove_first x (l ++ [x]) = l.
Proof.
  induction l as [| a r IH]; simpl; intros H.
  - now rewrite String.eqb_refl.
  - destruct (String.eqb a x) eqn:E.
    + apply String.eqb_eq in E. subst. exfalso. apply H. now left.
    + f_equal. apply IH. intros Hx. apply H. now right.
Qed.

Lemma count_remove_first (x y : string) (l : list string) :
  count_occ string_dec (remove_first x l) y
  = if string_dec x y then Nat.pred (count_occ string_dec l y)
    else count_occ string_dec l y.
Proof.
  induction l as [| a r IH]; simpl.
  - now destruct (string_dec x y).
  - destruct (String.eqb a x) eqn:E.
    + apply String.eqb_eq in E. subst a.
      destruct (string_dec x y); reflexivity.
    + apply String.eqb_neq in E. simpl.
      destruct (string_dec a y) as [-> | Hay].
      * destruct (string_dec x y) as [-> | _]; [contradiction |].
        now rewrite IH; destruct (string_dec x y).
      * exact IH.
Qed.

Lemma actionPoints_removeActionPoint k p s :
  actionPoints k (_removeActionPoint k p s)
  = remove_first p (actionPoints k s).
Proof.
  unfold _removeActionPoint.
  destruct (isInArray (actionPoints k s) p) eqn:E.
  - destruct k; reflexivity.
  - apply isInArray_false in E. now rewrite remove_first_absent.
Qed.

(** X7: removing a role takes away one occurrence of the point, the
    first, and leaves the other role points and their order alone; a
    point that was pushed twice, as [addPoint] on a member does with
    [translationPoints], still has the role after one removal. *)
Theorem removeActionPoint_takes_one k p s :
  (forall q,
     count_occ string_dec (actionPoints k (_removeActionPoint k p s)) q
     = if string_dec p q
       then Nat.pred (count_occ string_dec (actionPoints k s) q)
       else count_occ string_dec (actionPoints k s) q)
  /\ (forall pre post,
        actionPoints k s = pre ++ p :: post -> ~ In p pre ->
        actionPoints k (_removeActionPoint k p s) = pre ++ post)
  /\ isInArray
       (translationPoints
          (removeTranslationPoint p (addPoint p (addPoint p s)))) p = true.
Proof.
  split; [| split].
  - intros q. rewrite actionPoints_removeActionPoint.
    apply count_remove_first.
  - intros pre post E Hpre. rewrite actionPoints_removeActionPoint, E.
    clear E. induction pre as [| a r IH]; simpl.
    + now rewrite String.eqb_refl.
    + destruct (String.eqb a p) eqn:Ea.
      * apply String.eqb_eq in Ea. subst. exfalso. apply Hpre. now left.
      * f_equal. apply IH. intros H. apply Hpre. now right.
  - unfold removeTranslationPoint.
    change (translationPoints
              (_removeActionPoint of_translation p
                 (addPoint p (addPoint p s))))
      with (actionPoints of_translation
              (_removeActionPoint of_translation p
                 (addPoint p (addPoint p s)))).
    rewrite actionPoints_removeActionPoint. cbn [actionPoints].
    rewrite !translationPoints_addPoint.
    apply isInArray_In, (count_occ_In string_dec).
    rewrite count_remove_first.
    destruct (string_dec p p) as [_ | Hn]; [| contradiction].
    rewrite !count_occ_app. simpl.
    destruct (string_dec p p) as [_ | Hn]; [| contradiction]. lia.
Qed.

(** X8: adding a role to a point that does not have it and removing it
    again gives back the group as it was. *)
Theorem add_then_remove_role k p s :
  ~ In p (actionPoints k s) ->
  _removeActionPoint k p (_addActionPoint k p s) = s.
Proof.
  intros H. unfold _removeActionPoint.
  assert (E : actionPoints k (_addActionPoint k p s)
              = actionPoints k s ++ [p])
    by (destruct k; reflexivity).
  rewrite E.
  rewrite (proj2 (isInArray_In _ _)) by (apply in_or_app; right; now left).
  rewrite remove_first_last by assumption.
  destruct s, k; reflexivity.
Qed.

(** X9: [setScalePoints] with an array makes the array the scale points,
    whatever they were, and records the direction (['xy'] for a missing
    one) for each of its points; the directions of all other points,
    former scale points included, stay as they are, and members and
    cache are not touched. *)
Theorem setScalePoints_effect (l : list string) (direction : string) s :
  scalePoints (setScalePoints l direction s) = l
  /\ (forall p, In p l ->
        lookup p (scaleDirections (setScalePoints l direction s))
        = Some (direction_or_xy direction))
  /\ (forall q, ~ In q l ->
        lookup q (scaleDirections (setScalePoints l direction s))
        = lookup q (scaleDirections s))
  /\ objects (setScalePoints l direction s) = objects s
  /\ coords (setScalePoints l direction s) = coords s
  /\ rotationPoints (setScalePoints l direction s) = rotationPoints s
  /\ translationPoints (setScalePoints l direction s)
     = translationPoints s.
Proof.
  unfold setScalePoints. rewrite setActionPoints_replaces.
  destruct (directions_fold l (direction_or_xy direction) s)
    as (H1 & H2 & H3 & H4 & H5 & Hin & Hout).
  simpl. repeat split; auto.
Qed.
End Roles.

(** ** Adding many points, merging groups, releasing them *)

Section Bulk.
Context {num : Type} {N : Number num} {L : Library num}.
Implicit Types (s : State num) (p el q : string).

Lemma usrCoords_addPoint p q s :
  usrCoords (points (addPoint p s) q) = usrCoords (points s q).
Proof.
  unfold addPoint, _updateCoordsCache. simpl. rewrite isInArray_add_key.
  unfold store.
  destruct (String.eqb p EmptyString); simpl;
    destruct (String.eqb q p) eqn:E; try reflexivity;
    apply String.eqb_eq in E; now subst.
Qed.

Lemma add_key_prefix (k : string) (o : list string) :
  array_index k = None -> exists new, add_key k o = o ++ new.
Proof.
  intros _. unfold add_key. destruct (isInArray o k).
  - exists []. now rewrite app_nil_r.
  - now exists [k].
Qed.

Lemma addPoints_members (l : list string) s :
  (forall p, In p (objects (addPoints l s)) <-> In p (objects s) \/ In p l)
  /\ (Forall (fun p => array_index p = None) l ->
      exists new, objects (addPoints l s) = objects s ++ new)
  /\ translationPoints (addPoints l s) = translationPoints s ++ l
  /\ rotationPoints (addPoints l s) = rotationPoints s
  /\ scalePoints (addPoints l s) = scalePoints s
  /\ (forall q, usrCoords (points (addPoints l s) q)
                = usrCoords (points s q)).
Proof.
  revert s. induction l as [| a r IH]; intros s; simpl.
  - split; [tauto |]. split; [| repeat split; auto].
    + intros _. exists []. now rewrite app_nil_r.
    + now rewrite app_nil_r.
  - destruct (IH (addPoint a s)) as (Hin & Hfront & Ht & Hr & Hs & Hu).
    destruct (scale_addPoint a s) as (Es & _ & Er & _).
    split; [| split; [| repeat split]].
    + intros p. rewrite Hin, objects_addPoint, In_add_key. intuition.
    + intros Hl. inversion Hl as [| x y Ha Hrest]; subst.
      destruct (Hfront Hrest) as [new Hnew].
      destruct (@add_key_prefix a (objects s) Ha) as [n1 Hn1].
      exists (n1 ++ new). rewrite Hnew, objects_addPoint, Hn1.
      now rewrite app_assoc.
    + rewrite Ht, translationPoints_addPoint. now rewrite <- app_assoc.
    + congruence.
    + congruence.
    + intros q. rewrite Hu. apply usrCoords_addPoint.
Qed.

Lemma addPoints_cached (l : list string) s p :
  In p l -> p <> EmptyString ->
  lookup p (coords (addPoints l s)) = Some (usrCoords (points s p)).
Proof.
  revert s. induction l as [| a r IH]; intros s Hin Hp; [destruct Hin |].
  simpl. destruct (in_dec string_dec p r) as [Hr | Hr].
  - rewrite IH by assumption. now rewrite usrCoords_addPoint.
  - destruct Hin as [-> | Hin]; [| contradiction].
    assert (G : forall (r' : list string) s',
               ~ In p r' ->
               lookup p (coords (addPoints r' s')) = lookup p (coords s')).
    { clear. induction r' as [| b r' IH']; intros s' Hn; [reflexivity |].
      simpl. rewrite IH' by (intros H; apply Hn; now right).
      rewrite coords_addPoint. destruct (String.eqb b EmptyString);
        [reflexivity |].
      apply lookup_assign_other. intros ->. apply Hn. now left. }
    rewrite G by assumption. rewrite coords_addPoint.
    apply String.eqb_neq in Hp. rewrite Hp. apply lookup_assign_same.
Qed.

(** X10: [addPoints] makes every listed point a member and leaves nobody
    else in; when no listed id is an array index, the former members
    keep their places at the front of the iteration order; every listed
    point with a non-empty id is cached at its live coordinates; the
    whole list, repetitions included, is appended to
    [translationPoints]; no point is moved. *)
Theorem addPoints_effect (l : list string) s :
  (forall p, In p (objects (addPoints l s)) <-> In p (objects s) \/ In p l)
  /\ (Forall (fun p => array_index p = None) l ->
      exists new, objects (addPoints l s) = objects s ++ new)
  /\ (forall p, In p l -> p <> EmptyString ->
        lookup p (coords (addPoints l s)) = Some (usrCoords (points s p)))
  /\ translationPoints (addPoints l s) = translationPoints s ++ l
  /\ (forall q, usrCoords (points (addPoints l s) q)
                = usrCoords (points s q)).
Proof.
  destruct (addPoints_members l s) as (H1 & H2 & H3 & _ & _ & H6).
  repeat split; try apply H1; auto. intros p. apply addPoints_cached.
Qed.

Lemma add_key_member (k : string) (o : list string) :
  In k o -> add_key k o = o.
Proof.
  intros H. unfold add_key. now rewrite (proj2 (isInArray_In _ _) H).
Qed.

Lemma addPoints_of_members (l : list string) s :
  (forall p, In p l -> In p (objects s)) ->
  objects (addPoints l s) = objects s.
Proof.
  revert s. induction l as [| a r IH]; intros s H; simpl; [reflexivity |].
  assert (E : objects (addPoint a s) = objects s).
  { rewrite objects_addPoint. apply add_key_member, H. now left. }
  rewrite IH; [exact E |]. intros p Hp. rewrite E. apply H. now right.
Qed.

(** X11: [addGroup] makes the members of the other group members of this
    one, in addition to its own, and appends them all to
    [translationPoints]; a group added to itself keeps its members as
    they are and gets every one of them once more in
    [translationPoints]. *)
Theorem addGroup_effect (group s : State num) :
  (forall p, In p (objects (addGroup group s))
             <-> In p (objects s) \/ In p (objects group))
  /\ translationPoints (addGroup group s)
     = translationPoints s ++ objects group
  /\ objects (addGroup s s) = objects s
  /\ translationPoints (addGroup s s) = translationPoints s ++ objects s.
Proof.
  change (addGroup group s) with (addPoints (objects group) s).
  change (addGroup s s) with (addPoints (objects s) s).
  destruct (addPoints_members (objects group) s) as (H1 & _ & H3 & _).
  destruct (addPoints_members (objects s) s) as (_ & _ & H3' & _).
  repeat split; try apply H1; auto.
  apply addPoints_of_members. auto.
Qed.

(** X12: in a group that was only given points -- by the constructor or by
    [addPoints] on a new group -- no drag is ever classified as a
    rotation or a scaling, and no move of a member goes unanswered:
    wherever the points are, the classifier finds either no change or a
    translation. *)
Theorem fresh_group_only_translates (l : list string) (id : string)
  (board : list string) (h h' : Heap num) (dirty : bool) (d : Drag) :
  _update_find_drag_type
    (set_needsUpdate dirty
       (set_points h' (addPoints l (new_Group id board h)))) = Some d ->
  action d = translation \/ (action d = nothing /\ changed d = []).
Proof.
  set (s0 := addPoints l (new_Group id board h)).
  destruct (addPoints_members l (new_Group id board h))
    as (Hin & _ & Ht & Hr & Hs & _).
  fold s0 in Hin, Ht, Hr, Hs. simpl in Ht, Hr, Hs.
  set (s := set_needsUpdate dirty (set_points h' s0)).
  unfold _update_find_drag_type.
  destruct (find_changed s (objects s)) as [ch |] eqn:Hch;
    simpl; [| discriminate].
  destruct (find_changed_filter _ _ Hch) as [Hf _].
  destruct ch as [| p rest]; intros H; inversion H; subst d; clear H.
  - right. split; reflexivity.
  - left.
    assert (Hp : In p (objects s0)).
    { assert (Hp : In p (filter (moved s) (objects s)))
        by (rewrite <- Hf; now left).
      now apply filter_In in Hp. }
    apply Hin in Hp. simpl in Hp. destruct Hp as [[] | Hp].
    simpl. rewrite Hr, Hs, Ht. simpl.
    rewrite (proj2 (isInArray_In _ _) Hp).
    now destruct (1 <? S (length rest)).
Qed.

Lemma delete_at_indexOf (arr : list string) (x : string) (i : nat) :
  indexOf arr x = Some i -> delete_at i arr = remove_first x arr.
Proof.
  revert i. induction arr as [| y r IH]; intros i; simpl; [discriminate |].
  destruct (String.eqb y x); [intros E; inversion E; reflexivity |].
  destruct (indexOf r x) as [j |]; [| discriminate].
  intros E. inversion E. subst i. unfold delete_at in *. simpl.
  f_equal. now apply IH.
Qed.

Lemma indexOf_none (arr : list string) (x : string) :
  indexOf arr x = None -> remove_first x arr = arr.
Proof.
  induction arr as [| y r IH]; simpl; [reflexivity |].
  destruct (String.eqb y x); [discriminate |].
  destruct (indexOf r x); [discriminate |].
  intros _. f_equal. now apply IH.
Qed.

Lemma remove_first_NoDup (x : string) (arr : list string) :
  NoDup arr -> ~ In x (remove_first x arr).
Proof.
  induction 1 as [| y r Hy Hr IH]; simpl; [tauto |].
  destruct (String.eqb y x) eqn:E.
  - apply String.eqb_eq in E. now subst y.
  - apply String.eqb_neq in E. simpl. tauto.
Qed.

(** One turn of the loop of [ungroup]. *)
Lemma ungroup_turn el s :
  let s' :=
    match indexOf (groups (points s el)) (group_id s) with
    | Some i => set_groups el (delete_at i (groups (points s el))) s
    | None => s
    end in
  s' = set_groups el (remove_first (group_id s) (groups (points s el))) s
       \/ (s' = s
           /\ remove_first (group_id s) (groups (points s el))
              = groups (points s el)).
Proof.
  simpl. destruct (indexOf (groups (points s el)) (group_id s)) eqn:E.
  - left. now rewrite (delete_at_indexOf _ _ E).
  - right. split; [reflexivity | now apply indexOf_none].
Qed.

Lemma ungroup_loop (l : list string) s :
  let s' :=
    fold_left
      (fun st el =>
         match indexOf (groups (points st el)) (group_id st) with
         | Some i => set_groups el (delete_at i (groups (points st el))) st
         | None => st
         end) l s in
  (group_id s' = group_id s /\ coords s' = coords s
   /\ rotationCenter s' = rotationCenter s
   /\ scaleCenter s' = scaleCenter s
   /\ translationPoints s' = translationPoints s
   /\ rotationPoints s' = rotationPoints s
   /\ scalePoints s' = scalePoints s)
  /\ (forall q, usrCoords (points s' q) = usrCoords (points s q))
  /\ (forall q, ~ In q l -> groups (points s' q) = groups (points s q))
  /\ (NoDup l -> forall el, In el l ->
        groups (points s' el)
        = remove_first (group_id s) (groups (points s el))).
Proof.
  revert s. induction l as [| a r IH]; intros s; simpl.
  - split; [repeat split |]. split; [reflexivity |].
    split; [reflexivity |]. intros _ el [].
  - set (s1 := match indexOf (groups (points s a)) (group_id s) with
               | Some i => set_groups a (delete_at i (groups (points s a))) s
               | None => s
               end).
    destruct (IH s1) as ((Hid & Hco & Hrc & Hsc & Ht & Hr & Hs)
                         & Hu & Hout & Hin).
    assert (Hg : groups (points s1 a)
                 = remove_first (group_id s) (groups (points s a))).
    { destruct (ungroup_turn a s) as [E | [E E']]; fold s1 in E;
        rewrite E; [| now rewrite E'].
      unfold set_groups, store. simpl. now rewrite String.eqb_refl. }
    assert (Ho : forall q, q <> a ->
                   groups (points s1 q) = groups (points s q)).
    { intros q Hq. destruct (ungroup_turn a s) as [E | [E _]]; fold s1 in E;
        rewrite E; [| reflexivity].
      unfold set_groups, store. simpl. apply String.eqb_neq in Hq.
      now rewrite Hq. }
    assert (Hc : forall q, usrCoords (points s1 q) = usrCoords (points s q)).
    { intros q. destruct (ungroup_turn a s) as [E | [E _]]; fold s1 in E;
        rewrite E; [| reflexivity].
      unfold set_groups, store. simpl.
      destruct (String.eqb q a) eqn:Eq; [| reflexivity].
      apply String.eqb_eq in Eq. now subst q. }
    assert (Hf : group_id s1 = group_id s /\ coords s1 = coords s
                 /\ rotationCenter s1 = rotationCenter s
                 /\ scaleCenter s1 = scaleCenter s
                 /\ translationPoints s1 = translationPoints s
                 /\ rotationPoints s1 = rotationPoints s
                 /\ scalePoints s1 = scalePoints s).
    { destruct (ungroup_turn a s) as [E | [E _]]; fold s1 in E;
        rewrite E; repeat split. }
    destruct Hf as (Fid & Fco & Frc & Fsc & Ft & Fr & Fs).
    split; [repeat split; congruence |]. split; [| split].
    + intros q. now rewrite Hu.
    + intros q Hq. rewrite Hout by tauto. apply Ho. intros ->. tauto.
    + intros Hnd el Hel. inversion Hnd as [| x y Ha Hrest]; subst.
      destruct Hel as [<- | Hel].
      * rewrite Hout by assumption. exact Hg.
      * rewrite Hin by assumption. rewrite Fid, Ho; [reflexivity |].
        intros ->. contradiction.
Qed.

(** X13: [ungroup] leaves the group without members but with its cache,
    role points and centers as they were, so the centroid is still that
    of the released points; no point is moved; in the [groups] of each
    released point the first entry equal to the id of the group is
    deleted, and only that, so that a point which listed the id once
    lists it no more; the [groups] of other points are left alone;
    afterwards [update] does nothing, wherever the points go. *)
Theorem ungroup_effect s :
  objects (ungroup s) = []
  /\ coords (ungroup s) = coords s
  /\ rotationCenter (ungroup s) = rotationCenter s
  /\ scaleCenter (ungroup s) = scaleCenter s
  /\ translationPoints (ungroup s) = translationPoints s
  /\ rotationPoints (ungroup s) = rotationPoints s
  /\ scalePoints (ungroup s) = scalePoints s
  /\ _update_centroid_center (ungroup s) = _update_centroid_center s
  /\ (forall q, usrCoords (points (ungroup s) q) = usrCoords (points s q))
  /\ (NoDup (objects s) -> forall el, In el (objects s) ->
        groups (points (ungroup s) el)
        = remove_first (group_id s) (groups (points s el)))
  /\ (NoDup (objects s) -> forall el, In el (objects s) ->
        NoDup (groups (points s el)) ->
        ~ In (group_id s) (groups (points (ungroup s) el)))
  /\ (forall q, ~ In q (objects s) ->
        groups (points (ungroup s) q) = groups (points s q))
  /\ (forall updateElements (h : Heap num) (dirty : bool),
        update updateElements
          (set_needsUpdate dirty (set_points h (ungroup s)))
        = Some (set_needsUpdate dirty (set_points h (ungroup s)))).
Proof.
  destruct (ungroup_loop (objects s) s)
    as ((Hid & Hco & Hrc & Hsc & Ht & Hr & Hs) & Hu & Hout & Hin).
  unfold ungroup.
  split; [reflexivity |]. split; [exact Hco |]. split; [exact Hrc |].
  split; [exact Hsc |]. split; [exact Ht |]. split; [exact Hr |].
  split; [exact Hs |]. split.
  { rewrite !centroid_is_mean. simpl. now rewrite Hco. }
  split; [exact Hu |]. split; [exact Hin |]. split.
  { intros Hnd el Hel Hg. simpl. rewrite (Hin Hnd el Hel).
    now apply remove_first_NoDup. }
  split; [exact Hout |].
  intros hook h dirty. unfold update. now destruct dirty.
Qed.


End Bulk.

(** ** One cycle is enough *)

Section Settled.
Context {num : Type} {N : Number num} {L : Library num}.
Implicit Types (s : State num) (p el q : string) (d : Drag).

Lemma find_changed_none s (els : list string) :
  (forall el, In el els ->
     exists c, lookup el (coords s) = Some c
               /\ flt Mat_eps (Coords_distance (usrCoords (points s el)) c)
                  = false) ->
  find_changed s els = Some [].
Proof.
  induction els as [| el r IH]; intros H; simpl; [reflexivity |].
  destruct (H el (or_introl eq_refl)) as (c & Hc & Hd).
  rewrite Hc. simpl. rewrite IH by (intros x Hx; apply H; now right).
  simpl. now rewrite Hd.
Qed.

Lemma no_change_no_effect
  (updateElements : Drag -> State num -> option (State num)) s :
  find_changed s (objects s) = Some [] ->
  update updateElements s = Some s.
Proof.
  intros H. unfold update.
  destruct (needsUpdate s); [| reflexivity]. simpl.
  unfold _update_find_drag_type. rewrite H. reflexivity.
Qed.

(** X15: after a cycle that applied a transformation, a further [update]
    finds nothing to do and changes nothing, flag set or not, provided
    the members have non-empty ids and the distance of their coordinates
    to themselves does not exceed [Mat.eps]. *)
Theorem update_after_cycle_is_quiet
  (updateElements again : Drag -> State num -> option (State num))
  s d (t : Transform) (s1 s3 : State num) :
  needsUpdate s = true ->
  _update_find_drag_type s = Some d ->
  action d <> nothing ->
  prepare s d = Some (Ready t) ->
  _update_apply_transformation d t s = Some s1 ->
  updateElements d (set_needsUpdate false s1) = Some s3 ->
  Forall
    (fun el =>
       el <> EmptyString
       /\ flt Mat_eps (Coords_distance (usrCoords (points s3 el))
                         (usrCoords (points s3 el))) = false)
    (objects s3) ->
  exists s',
    update updateElements s = Some s'
    /\ forall dirty,
         update again (set_needsUpdate dirty s')
         = Some (set_needsUpdate dirty s').
Proof.
  intros Hdirty Hd Ha Hp Happ Hboard Hself.
  exists (refresh_all s3). split.
  - unfold update. rewrite Hdirty, Hd. simpl.
    destruct (action d); [contradiction | | |];
      rewrite Hp; simpl; rewrite Happ; simpl; now rewrite Hboard.
  - intros dirty. apply no_change_no_effect.
    destruct (@refresh_fold _ (objects s3) s3 (fun el H => H))
      as (Ho & Hpt & Hin & _).
    fold (refresh_all s3) in Ho, Hpt, Hin.
    apply find_changed_none. simpl. intros el Hel. rewrite Ho in Hel.
    rewrite Forall_forall in Hself. destruct (Hself el Hel) as [Hne Hz].
    exists (usrCoords (points s3 el)). split; [now apply Hin |].
    now rewrite Hpt.
Qed.
End Settled.

(** ** These properties on concrete groups *)

Lemma update_without_change_witness :
  find_changed Cases.resting (objects Cases.resting) = Some []
  /\ update JS.quiet Cases.resting = Some Cases.resting.
Proof.
  assert (H : find_changed Cases.resting (objects Cases.resting) = Some [])
    by evaluate.
  exact (conj H (update_without_change JS.quiet Cases.resting H)).
Defined.

Lemma move_without_role_witness :
  find_changed Cases.no_role (objects Cases.no_role) = Some ["A"%string]
  /\ isInArray (translationPoints Cases.no_role) "A" = false
  /\ exists s',
       update JS.quiet Cases.no_role = Some s'
       /\ points s' = points Cases.no_role
       /\ lookup "A" (coords s') = Some (1, 1, 3)%float.
Proof.
  assert (H1 : needsUpdate Cases.no_role = true) by reflexivity.
  assert (H2 : "A"%string <> EmptyString) by discriminate.
  assert (H3 : find_changed Cases.no_role (objects Cases.no_role)
               = Some ["A"%string]) by evaluate.
  assert (H4 : isInArray (rotationPoints Cases.no_role) "A"
               && Type_exists (rotationCenter Cases.no_role) = false)
    by reflexivity.
  assert (H5 : isInArray (scalePoints Cases.no_role) "A"
               && Type_exists (scaleCenter Cases.no_role) = false)
    by reflexivity.
  assert (H6 : isInArray (translationPoints Cases.no_role) "A" = false)
    by evaluate.
  destruct (@move_without_role float JS.number JS.library JS.quiet
              Cases.no_role "A"%string H1 H2 H3 H4 H5 H6)
    as (s' & Hu & Hp & _ & _ & Hc & _).
  split; [exact H3 |]. split; [exact H6 |].
  exists s'. split; [exact Hu |]. split; [exact Hp |]. exact Hc.
Defined.

Lemma cycle_renews_the_cache_witness :
  exists s' : State float,
    update JS.quiet Scenes.dragged = Some s'
    /\ lookup "B" (coords Scenes.dragged) = Some (1, 2, 0)%float
    /\ lookup "B" (coords s') = Some (usrCoords (points s' "B"%string))
    /\ usrCoords (points s' "B"%string) = (1, 3, 3)%float.
Proof.
  assert (H1 : needsUpdate Scenes.dragged = true) by reflexivity.
  assert (H2 : _update_find_drag_type Scenes.dragged = Some Scenes.drag_A)
    by evaluate.
  assert (H3 : action Scenes.drag_A <> nothing) by discriminate.
  assert (H4 : prepare Scenes.dragged Scenes.drag_A
               = Some (Ready (TArray 1 3)%float)) by evaluate.
  destruct (_update_apply_transformation Scenes.drag_A (TArray 1 3)%float
              Scenes.dragged) as [s1 |] eqn:H5;
    [| vm_compute in H5; discriminate H5].
  assert (Ho1 : objects s1 = ["A"; "B"; "C"; "D"]%string)
    by (vm_compute in H5; inversion H5; reflexivity).
  assert (Hp1 : usrCoords (points s1 "B"%string) = (1, 3, 3)%float)
    by (vm_compute in H5; inversion H5; reflexivity).
  assert (H6 : JS.quiet Scenes.drag_A (set_needsUpdate false s1)
               = Some (set_needsUpdate false s1)) by reflexivity.
  destruct (@cycle_renews_the_cache float JS.number JS.library JS.quiet
              Scenes.dragged Scenes.drag_A (TArray 1 3)%float s1
              (set_needsUpdate false s1) H1 H2 H3 H4 H5 H6)
    as (s' & Hu & Ho & Hp & Hin & _).
  exists s'. split; [exact Hu |]. split; [evaluate |].
  assert (HB : In "B"%string (objects s'))
    by (rewrite Ho; simpl; rewrite Ho1; simpl; tauto).
  split; [apply Hin; [exact HB | discriminate] |].
  rewrite Hp. exact Hp1.
Defined.

Lemma stale_members_are_dropped_witness :
  isInArray (board_objects Cases.gone) "C" = false
  /\ exists s' : State float,
       _update_apply_transformation Scenes.drag_A (TArray 1 3)%float
         Cases.gone = Some s'
       /\ objects s' = ["A"; "B"; "D"]%string
       /\ coords s' = coords Cases.gone
       /\ points s' "C"%string = points Cases.gone "C"%string.
Proof.
  assert (Hc : isInArray (board_objects Cases.gone) "C" = false)
    by reflexivity.
  destruct (_update_apply_transformation Scenes.drag_A (TArray 1 3)%float
              Cases.gone) as [s' |] eqn:H;
    [| vm_compute in H; discriminate H].
  destruct (@stale_members_are_dropped float JS.number JS.library
              Scenes.drag_A (TArray 1 3)%float Cases.gone s' H)
    as (Ho & Hco & Hp).
  split; [exact Hc |]. exists s'. split; [reflexivity |].
  split; [rewrite Ho; reflexivity |]. split; [exact Hco |].
  exact (Hp "C"%string Hc).
Defined.

Lemma configured_group_is_ready_witness :
  Forall (fun p => p <> EmptyString) (flat_map joining Cases.configuration)
  /\ ready Cases.configured.
Proof.
  assert (H : Forall (fun p => p <> EmptyString)
                (flat_map joining Cases.configuration))
    by (repeat constructor; discriminate).
  exact (conj H (@configured_group_is_ready float
                   Cases.configuration "g"%string (keys Scenes.square)
                   (JS.heap_of Scenes.square) H)).
Defined.

Lemma ready_moveTo (p : string) (x y : float) (s : State float) :
  ready s -> ready (JS.moveTo p x y s).
Proof. intros H. exact H. Qed.

Lemma ready_group_updates_without_error_witness :
  ready (JS.moveTo "B" 3 0 Cases.configured)
  /\ exists s', update JS.quiet (JS.moveTo "B" 3 0 Cases.configured)
                = Some s'.
Proof.
  assert (Hr : ready (JS.moveTo "B" 3 0 Cases.configured)).
  { apply ready_moveTo. unfold Cases.configured.
    apply ready_calls; [| apply ready_new_Group].
    repeat constructor; discriminate. }
  assert (Hb : forall (d : Drag) (x : State float), JS.quiet d x <> None)
    by (intros d x; discriminate).
  exact (conj Hr (@ready_group_updates_without_error float JS.number
                    JS.library JS.quiet _ Hr Hb)).
Defined.

Lemma add_then_remove_role_witness :
  ~ In "B"%string (actionPoints of_rotation Scenes.square_group)
  /\ _removeActionPoint of_rotation "B"
       (_addActionPoint of_rotation "B" Scenes.square_group)
     = Scenes.square_group.
Proof.
  assert (H : ~ In "B"%string
                (actionPoints of_rotation Scenes.square_group))
    by (intros []).
  exact (conj H (@add_then_remove_role float of_rotation "B"%string
                   Scenes.square_group H)).
Defined.

Lemma fresh_group_only_translates_witness :
  _update_find_drag_type
    (set_needsUpdate true
       (set_points (points Scenes.dragged)
          (addPoints ["A"; "B"; "C"; "D"]%string
             (new_Group "g" (keys Scenes.square)
                (JS.heap_of Scenes.square)))))
  = Some Scenes.drag_A
  /\ (action Scenes.drag_A = translation
      \/ (action Scenes.drag_A = nothing /\ changed Scenes.drag_A = [])).
Proof.
  assert (H : _update_find_drag_type
                (set_needsUpdate true
                   (set_points (points Scenes.dragged)
                      (addPoints ["A"; "B"; "C"; "D"]%string
                         (new_Group "g" (keys Scenes.square)
                            (JS.heap_of Scenes.square)))))
              = Some Scenes.drag_A) by evaluate.
  exact (conj H (@fresh_group_only_translates float JS.number JS.library
                   ["A"; "B"; "C"; "D"]%string "g"%string
                   (keys Scenes.square) (JS.heap_of Scenes.square)
                   (points Scenes.dragged) true Scenes.drag_A H)).
Defined.


Lemma update_after_cycle_is_quiet_witness :
  exists s' : State float,
    update JS.quiet Scenes.dragged = Some s'
    /\ update JS.quiet (set_needsUpdate true s')
       = Some (set_needsUpdate true s').
Proof.
  assert (H1 : needsUpdate Scenes.dragged = true) by reflexivity.
  assert (H2 : _update_find_drag_type Scenes.dragged = Some Scenes.drag_A)
    by evaluate.
  assert (H3 : action Scenes.drag_A <> nothing) by discriminate.
  assert (H4 : prepare Scenes.dragged Scenes.drag_A
               = Some (Ready (TArray 1 3)%float)) by evaluate.
  destruct (_update_apply_transformation Scenes.drag_A (TArray 1 3)%float
              Scenes.dragged) as [s1 |] eqn:H5;
    [| vm_compute in H5; discriminate H5].
  assert (H6 : JS.quiet Scenes.drag_A (set_needsUpdate false s1)
               = Some (set_needsUpdate false s1)) by reflexivity.
  assert (H7 : Forall
                 (fun el =>
                    el <> EmptyString
                    /\ flt Mat_eps
                         (Coords_distance
                            (usrCoords
                               (points (set_needsUpdate false s1) el))
                            (usrCoords
                               (points (set_needsUpdate false s1) el)))
                       = false)
                 (objects (set_needsUpdate false s1))).
  { vm_compute in H5. inversion H5; subst s1.
    repeat constructor; try discriminate; vm_compute; reflexivity. }
  destruct (@update_after_cycle_is_quiet float JS.number JS.library
              JS.quiet JS.quiet Scenes.dragged Scenes.drag_A
              (TArray 1 3)%float s1 (set_needsUpdate false s1)
              H1 H2 H3 H4 H5 H6 H7) as (s' & Hu & Hq).
  exists s'. split; [exact Hu | exact (Hq true)].
Defined.


(** * Properties of the environment helpers *)

Module EnvFacts.
Import Env.

(** X16: an event without [touches] counts -1 touch points, any other
    the length of [touches]; a mouse event is never a first touch; for a
    pointer event [isPrimary] alone decides, whatever the touches; for
    any other event the first touch is the one with exactly one touch
    point. *)
Theorem first_touch_by_kind (evt : Event) :
  (getNumberOfTouchPoints evt = (-1)%Z <-> isTouchEvent evt = false)
  /\ (isTouchEvent evt = true -> (0 <= getNumberOfTouchPoints evt)%Z)
  /\ (isMouseEvent evt = true -> isFirstTouch evt = false)
  /\ (isPointerEvent evt = true -> isFirstTouch evt = isPrimary evt)
  /\ (isPointerEvent evt = false ->
      (isFirstTouch evt = true <-> exists t, touches evt = Some [t])).
Proof.
  unfold isMouseEvent, isFirstTouch, getNumberOfTouchPoints,
    isTouchEvent, isPointerEvent.
  split; [| split; [| split; [| split]]].
  - destruct (touches evt) as [l |]; split; intros H;
      try discriminate; try reflexivity; lia.
  - destruct (touches evt) as [l |]; intros H; [lia | discriminate].
  - destruct (touches evt) as [l |], (pointerId evt) as [i |]; simpl;
      intros H; try discriminate; reflexivity.
  - destruct (pointerId evt) as [i |]; intros H;
      [reflexivity | discriminate].
  - destruct (pointerId evt) as [i |]; intros Hp; [discriminate |].
    destruct (touches evt) as [l |]; simpl; split.
    + intros H. apply Z.eqb_eq in H.
      destruct l as [| t [| u r]]; simpl in H; try lia. now exists t.
    + intros [t H]. inversion H. reflexivity.
    + discriminate.
    + intros [t H]. discriminate H.
Qed.

(** X17: without an index [getPosition] reports the event's own
    [clientX] and [clientY], except that a [clientX] of 0 yields (0, 0)
    whatever [clientY] is; with index -1 and no touch in the list it
    does the same; an empty [touches] makes it read [changedTouches]; an
    index beyond the touch list, or below -1, ends in a [TypeError]. *)
Theorem getPosition_cases (e : Event) :
  getPosition e None
  = Some (if Z.eqb (clientX e) 0 then (0, 0)%Z else (clientX e, clientY e))
  /\ (clientX e = 0%Z -> getPosition e None = Some (0, 0)%Z)
  /\ (forall l, touches e = Some l -> l <> [] -> first_touch l = None ->
        getPosition e (Some (-1)%Z) = getPosition e None)
  /\ (forall idx, touches e = Some [] ->
        getPosition e idx
        = getPosition
            (mkEvent (changedTouches e) (changedTouches e) (pointerId e)
               (isPrimary e) (clientX e) (clientY e)) idx)
  /\ (forall l i, touches e = Some l -> l <> [] ->
        (Z.of_nat (length l) <= i \/ i < -1)%Z ->
        getPosition e (Some i) = None).
Proof.
  split; [| split; [| split; [| split]]].
  - unfold getPosition. now destruct (touches e) as [[| a r] |].
  - intros H. unfold getPosition. rewrite H.
    now destruct (touches e) as [[| a r] |].
  - intros l Hl Hne Hf. unfold getPosition. rewrite Hl.
    destruct l as [| a r]; [contradiction |]. simpl Z.eqb. cbv iota.
    now rewrite Hf.
  - intros idx Hl. unfold getPosition. simpl. rewrite Hl.
    now destruct (changedTouches e) as [[| a r] |].
  - intros l i Hl Hne Hi. unfold getPosition. rewrite Hl.
    destruct l as [| a r]; [contradiction |].
    destruct (Z.eqb i (-1)) eqn:E1; [apply Z.eqb_eq in E1; simpl in *; lia |].
    destruct (Z.ltb i 0) eqn:E2; [reflexivity |].
    apply Z.ltb_ge in E2.
    assert (Hn : nth_error (a :: r) (Z.to_nat i) = None).
    { apply nth_error_None. destruct Hi as [Hi | Hi]; [| lia].
      rewrite <- (Nat2Z.id (length (a :: r))). apply Z2Nat.inj_le; lia. }
    now rewrite Hn.
Qed.
Lemma indexOf_origin_found (arr : list Wrapper) (el : Wrapper) :
  In el arr ->
  exists j el',
    indexOf_origin arr (origin el) = Some j
    /\ nth_error arr j = Some el' /\ origin el' = origin el.
Proof.
  induction arr as [| a r IH]; intros H; [destruct H |]. simpl.
  destruct (Nat.eqb (origin a) (origin el)) eqn:E.
  - apply Nat.eqb_eq in E. now exists 0, a.
  - destruct H as [-> | H]; [now rewrite Nat.eqb_refl in E |].
    destruct (IH H) as (j & el' & Hj & Hn & Ho). rewrite Hj.
    now exists (S j), el'.
Qed.

Lemma splice1_perm (arr : list Wrapper) (j : nat) (el : Wrapper) :
  nth_error arr j = Some el ->
  Permutation arr (el :: splice1 j arr)
  /\ length (splice1 j arr) = Nat.pred (length arr).
Proof.
  revert j. induction arr as [| a r IH]; intros j H.
  - destruct j; discriminate.
  - destruct j as [| j]; simpl in H.
    + inversion H; subst. unfold splice1. simpl. split; auto.
    + destruct (IH j H) as [Hp Hl]. unfold splice1 in *. simpl. split.
      * rewrite perm_swap. now constructor.
      * simpl in Hl. rewrite Hl.
        destruct r; [destruct j; discriminate | reflexivity].
Qed.

Lemma taken_off_app (type : string) (a b : list Effect) :
  taken_off type (a ++ b) = taken_off type a ++ taken_off type b.
Proof. unfold taken_off. apply flat_map_app. Qed.

Lemma removeAll_loop_empties (obj : option Node) (type : string) (n : nat) :
  forall (w : World) (cur : list Wrapper),
    lookup type (owner w) = Some (SArray cur) ->
    length cur = n ->
    exists w' fx,
      removeAll_loop obj type n w = Some w'
      /\ lookup type (owner w') = Some (SArray [])
      /\ (forall t, t <> type -> lookup t (owner w') = lookup t (owner w))
      /\ effects w' = fx ++ effects w
      /\ Forall removal fx
      /\ (forall node, obj = Some node -> modern node = true ->
            Permutation (taken_off type fx) (map wid cur)).
Proof.
  induction n as [| i IH]; intros w cur Hslot Hlen.
  - destruct cur; [| discriminate]. exists w, []. simpl.
    repeat split; auto.
  - simpl. rewrite Hslot.
    destruct (nth_error cur i) as [el |] eqn:Hel;
      [| apply nth_error_None in Hel; lia].
    destruct (indexOf_origin_found cur el (nth_error_In _ _ Hel))
      as (j & el' & Hj & Hn & Ho).
    destruct (splice1_perm _ _ Hn) as [Hperm Hl].
    set (w1 := removeEvent obj type (origin el) w).
    assert (E1 : w1 = mkWorld
                   (assign type (SArray (splice1 j cur)) (owner w))
                   (closures w)
                   (on_node obj (removeEventListener type (wid el'))
                      (detachEvent type (wid el')) ++ effects w)).
    { subst w1. unfold removeEvent. now rewrite Hslot, Hj, Hn. }
    destruct (IH w1 (splice1 j cur)) as (w' & fx & Hrun & He & Ho' & Hfx & Hrem & Hp).
    { rewrite E1. simpl. apply lookup_assign_same. }
    { rewrite Hl, Hlen. reflexivity. }
    exists w', (fx ++ on_node obj (removeEventListener type (wid el'))
                       (detachEvent type (wid el'))).
    split; [exact Hrun |]. split; [exact He |]. split; [| split; [| split]].
    + intros t Ht. rewrite Ho' by assumption. rewrite E1. simpl.
      now apply lookup_assign_other.
    + rewrite Hfx, E1. simpl. now rewrite app_assoc.
    + apply Forall_app. split; [exact Hrem |].
      destruct obj as [[m l] |]; simpl; [| constructor].
      destruct l, m; simpl; repeat constructor.
    + intros node -> Hm. rewrite taken_off_app.
      rewrite (Hp node eq_refl Hm). simpl. rewrite Hm.
      destruct (legacy node); simpl; rewrite String.eqb_refl; simpl;
        rewrite (Permutation_map wid Hperm); simpl;
        apply Permutation_sym, Permutation_cons_append.
Qed.

(** X18: [removeAllEvents] takes every listener of the type off the owner,
    also when the same function was registered several times: the
    owner's list for the type ends empty, the lists of the other types
    are untouched, no error is raised and nothing is reported; on a node
    with [removeEventListener] every closure of the list is taken off
    the node, each one once. *)
Theorem removeAllEvents_empties (obj : option Node) (type : string)
  (w : World) (arr : list Wrapper) :
  lookup type (owner w) = Some (SArray arr) ->
  exists w' fx,
    removeAllEvents obj type w = Some w'
    /\ lookup type (owner w') = Some (SArray [])
    /\ (forall t, t <> type -> lookup t (owner w') = lookup t (owner w))
    /\ effects w' = fx ++ effects w
    /\ Forall removal fx
    /\ (forall node, obj = Some node -> modern node = true ->
          Permutation (taken_off type fx) (map wid arr)).
Proof.
  intros Hslot.
  destruct (@removeAll_loop_empties obj type (length arr) w arr Hslot
              eq_refl)
    as (w' & fx & Hrun & He & Ho & Hfx & Hrem & Hp).
  exists w', fx. unfold removeAllEvents. rewrite Hslot, Hrun, He.
  repeat split; auto.
Qed.

(** X19: [removeEvent] takes away the oldest listener that wraps the
    function. After [addEvent] of a function that was not registered
    for the type, it undoes the registration: the list is as before
    (empty, if there was none) and the closure just made is taken off
    the node. If the function was registered before, the older closure
    goes and the one just made stays on the owner and on the node. *)
Theorem addEvent_then_removeEvent (type : string) (fn : nat) (w : World)
  (arr : list Wrapper) :
  lookup type (owner w) = Some (SArray arr)
  \/ (lookup type (owner w) = None /\ arr = []) ->
  exists w1,
    addEvent div type fn w = Some w1
    /\ (indexOf_origin arr fn = None ->
        lookup type (owner (removeEvent div type fn w1))
        = Some (SArray arr)
        /\ effects (removeEvent div type fn w1)
           = removeEventListener type (closures w)
             :: addEventListener type (closures w) :: effects w)
    /\ (forall j old,
          indexOf_origin arr fn = Some j -> nth_error arr j = Some old ->
          lookup type (owner (removeEvent div type fn w1))
          = Some (SArray (splice1 j arr ++ [mkWrapper (closures w) fn]))
          /\ effects (removeEvent div type fn w1)
             = removeEventListener type (wid old)
               :: addEventListener type (closures w) :: effects w).
Proof.
  intros Hslot.
  set (el := mkWrapper (closures w) fn).
  set (w1 := mkWorld (assign type (SArray (arr ++ [el])) (owner w))
               (S (closures w))
               (addEventListener type (closures w) :: effects w)).
  assert (Hadd : addEvent div type fn w = Some w1).
  { unfold addEvent.
    destruct Hslot as [H | [H ->]]; rewrite H; reflexivity. }
  assert (Hl : lookup type (owner w1) = Some (SArray (arr ++ [el])))
    by apply lookup_assign_same.
  exists w1. split; [exact Hadd |]. split.
  - intros Hnone.
    assert (Hi : indexOf_origin (arr ++ [el]) fn = Some (length arr)).
    { clear - Hnone. induction arr as [| a r IH]; simpl in *.
      - now rewrite Nat.eqb_refl.
      - destruct (Nat.eqb (origin a) fn); [discriminate |].
        destruct (indexOf_origin r fn); [discriminate |].
        now rewrite IH. }
    assert (Hn : nth_error (arr ++ [el]) (length arr) = Some el)
      by (rewrite nth_error_app2, Nat.sub_diag by lia; reflexivity).
    unfold removeEvent. rewrite Hl, Hi, Hn. simpl.
    rewrite lookup_assign_same. split; [| reflexivity].
    unfold splice1. rewrite firstn_app, Nat.sub_diag, firstn_all.
    rewrite skipn_all2 by (rewrite length_app; simpl; lia).
    simpl. now rewrite !app_nil_r.
  - intros j old Hj Hold.
    assert (Hjl : j < length arr)
      by (apply nth_error_Some; congruence).
    assert (Hi : indexOf_origin (arr ++ [el]) fn = Some j).
    { clear - Hj. revert j Hj. induction arr as [| a r IH]; intros j Hj;
        simpl in *; [discriminate |].
      destruct (Nat.eqb (origin a) fn); [assumption |].
      destruct (indexOf_origin r fn) as [i |]; [| discriminate].
      now rewrite (IH i eq_refl). }
    assert (Hn : nth_error (arr ++ [el]) j = Some old)
      by (rewrite nth_error_app1 by assumption; exact Hold).
    unfold removeEvent. rewrite Hl, Hi, Hn. simpl.
    rewrite lookup_assign_same. split; [| reflexivity].
    unfold splice1.
    rewrite firstn_app, skipn_app.
    replace (j - length arr) with 0 by lia.
    replace (S j - length arr) with 0 by lia. simpl.
    now rewrite app_nil_r, app_assoc.
Qed.
End EnvFacts.

(** * Properties of the axes of the 3D box *)

Module Box3dFacts.
Import Box3d.
Section Facts.
Context {num : Type} {N : Number num}.

Lemma corners_FromView (x y z : num * num) :
  corners (FromView (x, y, z))
  = ((fst x, fst y, fst z), (snd x, snd y, snd z)).
Proof. reflexivity. Qed.

Lemma corners_FromParents (p1 p2 : Vec) :
  corners (FromParents p1 p2)
  = ((get p1 0, get p1 1, get p1 2), (get p2 1, get p2 1, get p2 1)).
Proof. reflexivity. Qed.

(** X20: with bordered axes, the axis filed under xAxisBorder,
    yAxisBorder or zAxisBorder is an edge of the box: both its ends are
    corners, they agree in two coordinates and go from the rear to the
    front value in the third, which is y for the x axis, x for the y
    axis and z for the z axis. *)
Theorem border_axes_are_edges (b : Box) :
  Forall
    (fun i =>
       exists from to,
         lookup (direction i ++ "AxisBorder")%string (createAxes b false)
         = Some (axis3d from to)
         /\ is_corner (fst (corners b)) (snd (corners b)) from
         /\ is_corner (fst (corners b)) (snd (corners b)) to
         /\ get from (runs_along i) = get (fst (corners b)) (runs_along i)
         /\ get to (runs_along i) = get (snd (corners b)) (runs_along i)
         /\ forall k, k < 3 -> k <> runs_along i -> get from k = get to k)
    [0; 1; 2].
Proof.
  assert (G : forall rear front : Vec,
             corners b = (rear, front) ->
             Forall
               (fun i =>
                  exists from to,
                    lookup (direction i ++ "AxisBorder")%string
                      (createAxes b false) = Some (axis3d from to)
                    /\ is_corner rear front from
                    /\ is_corner rear front to
                    /\ get from (runs_along i) = get rear (runs_along i)
                    /\ get to (runs_along i) = get front (runs_along i)
                    /\ forall k, k < 3 -> k <> runs_along i ->
                                 get from k = get to k)
               [0; 1; 2]).
  { intros [[r0 r1] r2] [[f0 f1] f2] E. unfold createAxes. rewrite E.
    repeat constructor.
    - exists (f0, r1, r2), (f0, f1, r2). split; [reflexivity |].
      repeat split; try reflexivity;
        intros [| [| [| k]]] Hk; simpl; auto; lia.
    - exists (r0, f1, r2), (f0, f1, r2). split; [reflexivity |].
      repeat split; try reflexivity;
        intros [| [| [| k]]] Hk; simpl; auto; lia.
    - exists (r0, f1, r2), (r0, f1, f2). split; [reflexivity |].
      repeat split; try reflexivity;
        intros [| [| [| k]]] Hk; simpl; auto; lia. }
  destruct (corners b) as [rear front] eqn:E. simpl. now apply G.
Qed.

(** X21: the origin is created as the intersection of the entries xAxis
    and yAxis of [axes]. With centered axes both are there; with
    bordered axes neither is, the axes being filed under xAxisBorder
    and yAxisBorder, and the intersection is asked of two undefined
    operands. *)
Theorem origin_operands (b : Box) :
  lookup "O" (createAxes b true)
  = Some (intersection (Some "xAxis"%string) (Some "yAxis"%string))
  /\ lookup "O" (createAxes b false) = Some (intersection None None).
Proof.
  unfold createAxes. destruct (corners b) as [rear front].
  split; reflexivity.
Qed.

(** X22: no creation overwrites another: the keys are pairwise distinct,
    22 with centered axes (3 axes, the origin, 6 planes, 12 axes on the
    planes) and 25 with bordered ones (3 more for the ticks). *)
Theorem keys_are_distinct (b : Box) (centered : bool) :
  NoDup (keys (createAxes b centered))
  /\ length (createAxes b centered) = if centered then 22 else 25.
Proof.
  unfold createAxes. destruct (corners b) as [rear front].
  destruct centered; (split; [| reflexivity]).
  - match goal with |- NoDup ?l =>
      assert (E : nodup string_dec l = l) by (vm_compute; reflexivity)
    end.
    rewrite <- E. apply NoDup_nodup.
  - match goal with |- NoDup ?l =>
      assert (E : nodup string_dec l = l) by (vm_compute; reflexivity)
    end.
    rewrite <- E. apply NoDup_nodup.
Qed.

(** X23: each of the twelve axes on the planes lies in its plane and
    spans it in one direction: both ends have the plane's value in the
    coordinate of the plane, the rear and the front value in the
    coordinate it runs along, and 0 in the remaining one. *)
Theorem plane_axes_lie_in_their_planes (b : Box) (centered : bool) :
  Forall
    (fun ijk : nat * nat * nat =>
       let '(i, j, k) := ijk in
       exists from to,
         lookup (plane_axis_name i j k) (createAxes b centered)
         = Some (axis3d from to)
         /\ get from i
            = (if Nat.eqb j 0 then get (fst (corners b)) i
               else get (snd (corners b)) i)
         /\ get to i = get from i
         /\ get from ((i + k) mod 3) = get (fst (corners b)) ((i + k) mod 3)
         /\ get to ((i + k) mod 3) = get (snd (corners b)) ((i + k) mod 3)
         /\ get from ((i + 3 - k) mod 3) = fzero
         /\ get to ((i + 3 - k) mod 3) = fzero)
    plane_axis_indices.
Proof.
  unfold createAxes. destruct (corners b) as [[[r0 r1] r2] [[f0 f1] f2]].
  destruct centered; repeat constructor;
    (eexists; eexists; split; [reflexivity |]); repeat split.
Qed.

(** X24: without [view.D3] the front corner is made of the second entry
    of [parents[2]] alone, three times; its first and third entries play
    no part in what is created. *)
Theorem front_from_second_entry (p1 : Vec) (a b c a' c' : num)
  (centered : bool) :
  snd (corners (FromParents p1 (a, b, c))) = (b, b, b)
  /\ createAxes (FromParents p1 (a, b, c)) centered
     = createAxes (FromParents p1 (a', b, c')) centered.
Proof. split; reflexivity. Qed.
End Facts.
End Box3dFacts.

(** ** The listeners of a concrete owner *)

Lemma removeAllEvents_empties_witness :
  lookup "mousemove" (Env.owner EnvCases.listening)
  = Some (Env.SArray EnvCases.handlers)
  /\ exists w' fx,
       Env.removeAllEvents Env.div "mousemove" EnvCases.listening = Some w'
       /\ lookup "mousemove" (Env.owner w') = Some (Env.SArray [])
       /\ Env.effects w' = fx ++ Env.effects EnvCases.listening
       /\ Permutation (Env.taken_off "mousemove" fx)
            (map Env.wid EnvCases.handlers).
Proof.
  assert (H : lookup "mousemove" (Env.owner EnvCases.listening)
              = Some (Env.SArray EnvCases.handlers)) by reflexivity.
  destruct (EnvFacts.removeAllEvents_empties Env.div "mousemove"
              EnvCases.listening H)
    as (w' & fx & Hr & He & _ & Hfx & _ & Hp).
  split; [exact H |]. exists w', fx.
  split; [exact Hr |]. split; [exact He |]. split; [exact Hfx |].
  exact (Hp (Env.mkNode true false) eq_refl eq_refl).
Defined.

Lemma addEvent_then_removeEvent_witness :
  lookup "mousemove" (Env.owner EnvCases.listening)
  = Some (Env.SArray EnvCases.handlers)
  /\ exists w1,
       Env.addEvent Env.div "mousemove" 7 EnvCases.listening = Some w1
       /\ lookup "mousemove"
            (Env.owner (Env.removeEvent Env.div "mousemove" 7 w1))
          = Some (Env.SArray [Env.mkWrapper 1 8; Env.mkWrapper 2 7;
                              Env.mkWrapper 3 7]).
Proof.
  assert (H : lookup "mousemove" (Env.owner EnvCases.listening)
              = Some (Env.SArray EnvCases.handlers)) by reflexivity.
  destruct (@EnvFacts.addEvent_then_removeEvent "mousemove" 7
              EnvCases.listening EnvCases.handlers (or_introl H))
    as (w1 & Ha & _ & Hold).
  split; [exact H |]. exists w1. split; [exact Ha |].
  exact (proj1 (Hold 0 (Env.mkWrapper 0 7) eq_refl eq_refl)).
Defined.
